(** * leva hooks: [useTransform] and [useCanvas2d]

    A shallow embedding of the two hooks and the properties their
    specification states about them.

    - [UseTransform] embeds [hooks/useTransform.ts]: the retained point is a
      JavaScript object (a finite map from property names to values), [set]
      merges into it with [Object.assign] and writes the [translate3d] style of
      the attached element.
    - [UseCanvas2d] embeds the canvas hook: its three refs, its two effects,
      the window's resize listeners and the timers of the debounced handler,
      run by an event loop over resize events, clock ticks, re-renders and
      unmounting. *)

From Stdlib Require Import ZArith Lia.
From Stdlib Require QArith.
From stdpp Require Import base option list strings gmap pretty.

(** Completion of a JavaScript call: a value, or a thrown [TypeError]
    (reading or writing a property of [null]). *)
Inductive error := TypeError.

Inductive result (A : Type) : Type :=
| Ok (a : A)
| Throw (e : error).
Arguments Ok {A} a.
Arguments Throw {A} e.

Definition bind {A B : Type} (r : result A) (k : A -> result B) : result B :=
  match r with
  | Ok a => k a
  | Throw e => Throw e
  end.

Notation "r >>= k" := (bind r k) (at level 50, left associativity).

(** ** hooks/useTransform.ts *)
Module UseTransform.

Local Open Scope string_scope.

Section hook.

(** JavaScript numbers and their [ToString] conversion are those of the host;
    [zero] is the literal [0] of the initial point. *)
Context {num : Type} (ToString : num -> string) (zero : num).

(** The values a property of the point may hold: the declared type
    [{ x?: number; y?: number }] admits a property that is present with the
    value [undefined]. *)
Inductive value :=
| undefined
| number (n : num).

(** Reading a property: an absent property reads as [undefined]. *)
Definition get (o : gmap string value) (k : string) : value :=
  default undefined (o !! k).

(** [Object.assign(target, source)]: every own enumerable property of
    [source] is copied onto [target]; the other properties of [target] stay. *)
Definition Object_assign (target source : gmap string value) : gmap string value :=
  source ∪ target.

(** Conversion of a value inside a template literal. *)
Definition to_string (v : value) : string :=
  match v with
  | undefined => "undefined"
  | number n => ToString n
  end.

(** [`translate3d(${local.current.x}px, ${local.current.y}px, 0)`] *)
Definition translate3d (local : gmap string value) : string :=
  "translate3d(" +:+ to_string (get local "x") +:+ "px, "
                 +:+ to_string (get local "y") +:+ "px, 0)".

(** State of one hook instance and of the document it writes to.
    [ref_current] is [ref.current] ([None] is [null], [Some el] a reference to
    the element [el]); [local_current] is the object held by [local.current],
    mutated in place by [set]; [style_transform] is the value last assigned
    to [style.transform] of every element of the document (what the host's
    style parser makes of a value is not modelled); [writes] records every
    style write in order. *)
Record hook := mkHook {
  ref_current : option nat;
  local_current : gmap string value;
  style_transform : gmap nat string;
  writes : list (nat * string)
}.

(** [useRef(null)] and [useRef({ x: 0, y: 0 })] of the first render. *)
Definition useTransform (doc : gmap nat string) : hook :=
  {| ref_current := None;
     local_current := {[ "x" := number zero; "y" := number zero ]};
     style_transform := doc;
     writes := [] |}.

(** The host attaches the ref to a mounted element, or detaches it. *)
Definition attach (el : nat) (h : hook) : hook :=
  {| ref_current := Some el;
     local_current := local_current h;
     style_transform := style_transform h;
     writes := writes h |}.

Definition detach (h : hook) : hook :=
  {| ref_current := None;
     local_current := local_current h;
     style_transform := style_transform h;
     writes := writes h |}.

(** [r.style.transform = s]: throws when [r] is [null]. *)
Definition write_transform (r : option nat) (s : string) (h : hook) : result hook :=
  match r with
  | None => Throw TypeError
  | Some el =>
      Ok {| ref_current := ref_current h;
            local_current := local_current h;
            style_transform := <[ el := s ]> (style_transform h);
            writes := writes h ++ [(el, s)] |}
  end.

(** [set], lines 86-89. *)
Definition set (point : gmap string value) (h : hook) : result hook :=
  let h1 := {| ref_current := ref_current h;
               local_current := Object_assign (local_current h) point;
               style_transform := style_transform h;
               writes := writes h |} in
  match ref_current h1 with
  | Some _ => write_transform (ref_current h1) (translate3d (local_current h1)) h1
  | None => Ok h1
  end.

(** A sequence of calls to [set], in order. *)
Fixpoint set_all (points : list (gmap string value)) (h : hook) : result hook :=
  match points with
  | [] => Ok h
  | point :: points' => set point h >>= set_all points'
  end.

End hook.

Arguments value : clear implicits.
Arguments hook : clear implicits.

End UseTransform.


(** ** The canvas hook, [useCanvas2d] *)
Module UseCanvas2d.

Section hook.

(** Numbers and their product are those of the host (integers or floats), and
    so is [integer_part], the conversion of a number to an integer that an
    attribute of an integer type applies to the value assigned to it (the
    fraction is dropped; what is not a finite number gives 0). *)
Context {num : Type} (mul : num -> num -> num) (integer_part : num -> Z).

(** The canvas element: its displayed size ([offsetWidth], [offsetHeight]),
    set by layout, and its backing store size ([width], [height]), two
    attributes of type unsigned long. *)
Record HTMLCanvasElement := mkCanvas {
  offsetWidth : num;
  offsetHeight : num;
  width : Z;
  height : Z
}.

(** What an unsigned long attribute of the canvas holds once the integer [z]
    is assigned to it: [z] modulo 2^32, or the attribute's default when that
    is above 2^31 - 1. *)
Definition unsigned_long (default z : Z) : Z :=
  let u := (z mod 2 ^ 32)%Z in
  if (u <=? 2147483647)%Z then u else default.

(** What it holds once the number [x] is assigned to it. *)
Definition stored (default : Z) (x : num) : Z :=
  unsigned_long default (integer_part x).

Inductive CanvasRenderingContext2D := Context2D.

(** What an execution does that can be observed from outside, each entry with
    the time it happened at. [who] is the address of the debounced closure
    whose timer fired; render callbacks are identified by a number. *)
Inductive observation :=
| Recompute (who : nat) (w h : Z)
| Render (who : nat) (fn : nat) (canvas : HTMLCanvasElement)
         (ctx : option CanvasRenderingContext2D)
| Uncaught (e : error)
| GetContext.

(** Modelled from the spec: [debounce] of [../utils], which is not among the
    sources. "On event, (re)start a timer of fixed delay; on timer fire,
    execute the handler", "coalescing a burst of rapid events into a single
    delayed action fired after a quiescence period". A debounced closure holds
    the function it wraps (here the arrow function of lines 41-45, known by
    the render callback [fn] it captured), the delay, and its one timer:
    [timeout] is the time at which the pending timer fires, if one is
    pending. *)
Record debounced := mkDebounced {
  func : nat;
  wait : nat;
  timeout : option nat
}.

(** Modelled from the spec: [debounce(f, delay)] returns a closure with no
    timer pending. *)
Definition debounce (fn : nat) (delay : nat) : debounced :=
  {| func := fn; wait := delay; timeout := None |}.

(** Modelled from the spec: calling the debounced function at time [t], "the
    timer cancelled and restarted on each new event". *)
Definition restart (t : nat) (d : debounced) : debounced :=
  {| func := func d; wait := wait d; timeout := Some (t + wait d) |}.

(** Modelled from the spec: the timer of [d] is the one that fires at time
    [t], [wait d] units after the last call. *)
Definition due (t : nat) (d : debounced) : bool :=
  match timeout d with
  | Some t' => Nat.eqb t' t
  | None => false
  end.

(** Modelled from the spec: a timer that fires is no longer pending. *)
Definition expire (t : nat) (d : debounced) : debounced :=
  if due t d then {| func := func d; wait := wait d; timeout := None |} else d.

(** State of one hook instance and of its surroundings.
    - [now]: the clock; [devicePixelRatio]: [window.devicePixelRatio];
    - [node]: the canvas element the host renders; [canvas_current] tells
      whether [canvas.current] refers to it ([true]) or is [null];
    - [ctx_current], [hasFired_current]: the two other refs;
    - [heap]: the debounced closures created so far, a closure's address
      being its index; [listeners]: the window's resize listeners;
    - [effect]: the committed run of the first effect, as the callback it
      depends on and the closure its cleanup removes ([None]: not mounted);
    - [trace]: the observations so far. *)
Record state := mkState {
  now : nat;
  devicePixelRatio : num;
  node : HTMLCanvasElement;
  canvas_current : bool;
  ctx_current : option CanvasRenderingContext2D;
  hasFired_current : bool;
  heap : list debounced;
  listeners : list nat;
  effect : option (nat * nat);
  trace : list (nat * observation)
}.

Definition set_node (c : HTMLCanvasElement) (st : state) : state :=
  mkState (now st) (devicePixelRatio st) c (canvas_current st) (ctx_current st)
          (hasFired_current st) (heap st) (listeners st) (effect st) (trace st).

Definition set_heap (ds : list debounced) (st : state) : state :=
  mkState (now st) (devicePixelRatio st) (node st) (canvas_current st)
          (ctx_current st) (hasFired_current st) ds (listeners st) (effect st)
          (trace st).

Definition set_listeners (ls : list nat) (st : state) : state :=
  mkState (now st) (devicePixelRatio st) (node st) (canvas_current st)
          (ctx_current st) (hasFired_current st) (heap st) ls (effect st)
          (trace st).

Definition set_effect (e : option (nat * nat)) (st : state) : state :=
  mkState (now st) (devicePixelRatio st) (node st) (canvas_current st)
          (ctx_current st) (hasFired_current st) (heap st) (listeners st) e
          (trace st).

Definition observe (o : observation) (st : state) : state :=
  mkState (now st) (devicePixelRatio st) (node st) (canvas_current st)
          (ctx_current st) (hasFired_current st) (heap st) (listeners st)
          (effect st) (trace st ++ [(now st, o)]).

(** Lines 42-43: the two assignments to the backing store size, whose
    defaults are 300 and 150. *)
Definition recompute (c : HTMLCanvasElement) (dpr : num) : HTMLCanvasElement :=
  let c1 := mkCanvas (offsetWidth c) (offsetHeight c)
                     (stored 300 (mul (offsetWidth c) dpr)) (height c) in
  mkCanvas (offsetWidth c1) (offsetHeight c1)
           (width c1) (stored 150 (mul (offsetHeight c1) dpr)).

(** Lines 41-45: the function wrapped by [debounce], run for the closure at
    address [who] that captured [fn]. [canvas.current!] is a plain property
    read once compiled: on [null] it throws. *)
Definition handleCanvas_body (fn who : nat) (st : state) : result state :=
  if canvas_current st then
    let c := recompute (node st) (devicePixelRatio st) in
    Ok (observe (Render who fn c (ctx_current st))
         (observe (Recompute who (width c) (height c))
           (set_node c st)))
  else Throw TypeError.

(** A timer of the closure [d] at address [who] fires: the wrapped function
    runs; an exception it throws is reported and goes no further. *)
Definition later (who : nat) (d : debounced) (st : state) : state :=
  match handleCanvas_body (func d) who st with
  | Ok st' => st'
  | Throw e => observe (Uncaught e) st
  end.

(** The timers due at time [t] fire, in the order of the closures' addresses
    ([who] is the address of the head of [ds]). *)
Fixpoint fire (t who : nat) (ds : list debounced) (st : state) : state :=
  match ds with
  | [] => st
  | d :: ds' => fire t (S who) ds' (if due t d then later who d st else st)
  end.

(** One unit of time passes. *)
Definition tick (st : state) : state :=
  let t := S (now st) in
  fire t 0 (heap st)
       (mkState t (devicePixelRatio st) (node st) (canvas_current st)
                (ctx_current st) (hasFired_current st)
                (map (expire t) (heap st)) (listeners st) (effect st)
                (trace st)).

(** The debounced closure at address [a] is called. *)
Definition call (a : nat) (st : state) : state :=
  set_heap (alter (restart (now st)) a (heap st)) st.

(** The window is resized: layout gives the canvas its new displayed size, the
    pixel density may change, and the resize listeners are called. *)
Definition resize (w h dpr : num) (st : state) : state :=
  let c := mkCanvas w h (width (node st)) (height (node st)) in
  let st1 := mkState (now st) dpr c (canvas_current st) (ctx_current st)
                     (hasFired_current st) (heap st) (listeners st)
                     (effect st) (trace st) in
  foldl (fun s a => call a s) st1 (listeners st1).

(** Lines 40-50: the first effect, run for the render callback [fn]. *)
Definition effect_resize (fn : nat) (st : state) : state :=
  let handleCanvas := length (heap st) in
  let st1 := set_heap (heap st ++ [debounce fn 250]) st in
  let st2 := set_listeners (listeners st1 ++ [handleCanvas]) st1 in
  let st3 :=
    if hasFired_current st2 then st2
    else
      let st' := call handleCanvas st2 in
      mkState (now st') (devicePixelRatio st') (node st') (canvas_current st')
              (ctx_current st') true (heap st') (listeners st') (effect st')
              (trace st') in
  set_effect (Some (fn, handleCanvas)) st3.

(** Line 51: the cleanup returned by that run. *)
Definition cleanup_resize (handleCanvas : nat) (st : state) : state :=
  set_listeners
    (List.filter (fun a => negb (Nat.eqb a handleCanvas)) (listeners st)) st.

(** Lines 54-56: the second effect. *)
Definition effect_context (st : state) : result state :=
  if canvas_current st then
    let st' := observe GetContext st in
    Ok (mkState (now st') (devicePixelRatio st') (node st') (canvas_current st')
                (Some Context2D) (hasFired_current st') (heap st')
                (listeners st') (effect st') (trace st'))
  else Throw TypeError.

(** First render of the hook at time [t0], with the canvas element [el]
    attached to the returned ref: the refs of lines 34-36. *)
Definition initial (el : HTMLCanvasElement) (dpr : num) (t0 : nat) : state :=
  mkState t0 dpr el true None false [] [] None [].

(** Mounting: both effects run, in the order they are declared. *)
Definition mount (fn : nat) (el : HTMLCanvasElement) (dpr : num) (t0 : nat) : state :=
  let st1 := effect_resize fn (initial el dpr t0) in
  match effect_context st1 with
  | Ok st2 => st2
  | Throw e => observe (Uncaught e) st1
  end.

(** A later render with the callback [fn']: the first effect depends on
    [[fn]], the second on nothing. *)
Definition rerender (fn' : nat) (st : state) : state :=
  match effect st with
  | None => st
  | Some (fn, handleCanvas) =>
      if Nat.eqb fn fn' then st
      else effect_resize fn' (cleanup_resize handleCanvas st)
  end.

(** Unmounting: the host detaches the ref from the element, then runs the
    cleanup of the first effect. *)
Definition unmount (st : state) : state :=
  match effect st with
  | None => st
  | Some (_, handleCanvas) =>
      let st1 := mkState (now st) (devicePixelRatio st) (node st) false
                         (ctx_current st) (hasFired_current st) (heap st)
                         (listeners st) (effect st) (trace st) in
      set_effect None (cleanup_resize handleCanvas st1)
  end.

(** What happens to a mounted hook. *)
Inductive event :=
| Resize (w h dpr : num)
| Tick
| Rerender (fn : nat)
| Unmount.

Definition step (e : event) (st : state) : state :=
  match e with
  | Resize w h dpr => resize w h dpr st
  | Tick => tick st
  | Rerender fn => rerender fn st
  | Unmount => unmount st
  end.

Fixpoint run (evs : list event) (st : state) : state :=
  match evs with
  | [] => st
  | e :: evs' => run evs' (step e st)
  end.

(** [n] units of time pass with nothing else happening. *)
Definition ticks (n : nat) : list event := replicate n Tick.

(** A burst of resize events: a first one, then more, each given with the
    time that passed since the one before it. *)
Fixpoint burst (first : num * num * num) (more : list (nat * (num * num * num)))
  : list event :=
  match more with
  | [] => [Resize first.1.1 first.1.2 first.2]
  | (gap, next) :: more' =>
      Resize first.1.1 first.1.2 first.2 :: ticks gap ++ burst next more'
  end.

(** The last event of a burst. *)
Fixpoint last_resize (first : num * num * num)
         (more : list (nat * (num * num * num))) : num * num * num :=
  match more with
  | [] => first
  | (_, next) :: more' => last_resize next more'
  end.

(** The time a burst takes from its first event to its last. *)
Definition span (more : list (nat * (num * num * num))) : nat :=
  foldr (fun g n => g.1 + n) 0 more.

(** Observations selected from a trace. *)
Definition is_render (o : nat * observation) : bool :=
  match o.2 with
  | Render _ _ _ _ => true
  | _ => false
  end.

Definition is_getContext (o : nat * observation) : bool :=
  match o.2 with
  | GetContext => true
  | _ => false
  end.

Definition fired_by (a : nat) (o : nat * observation) : bool :=
  match o.2 with
  | Recompute who _ _ => Nat.eqb who a
  | Render who _ _ _ => Nat.eqb who a
  | _ => false
  end.

Definition renders (tr : list (nat * observation)) := List.filter is_render tr.
Definition acquisitions (tr : list (nat * observation)) := List.filter is_getContext tr.
Definition by_handler (a : nat) (tr : list (nat * observation)) :=
  List.filter (fired_by a) tr.



(** The two observations of one successful run of the handler. *)
Definition firing (t who fn : nat) (c : HTMLCanvasElement)
           (ctx : option CanvasRenderingContext2D) : list (nat * observation) :=
  [(t, Recompute who (width c) (height c)); (t, Render who fn c ctx)].

(** The observations of the timers of [ds] that fire at time [t], when the
    canvas is attached: [c] is the canvas after its backing store was
    recomputed, [who] the address of the head of [ds]. *)
Fixpoint gain (t who : nat) (ds : list debounced) (c : HTMLCanvasElement)
         (ctx : option CanvasRenderingContext2D) : list (nat * observation) :=
  match ds with
  | [] => []
  | d :: ds' =>
      (if due t d then firing t who (func d) c ctx else []) ++ gain t (S who) ds' c ctx
  end.

(** No timer is pending. *)
Definition idle (st : state) : Prop :=
  forall b d, heap st !! b = Some d -> timeout d = None.

(** Every timer pending in [new] was already pending, unchanged, in [old]. *)
Definition no_timer_started (old new : list debounced) : Prop :=
  forall b d, new !! b = Some d -> timeout d <> None -> old !! b = Some d.

(** The render callback has run, exactly once, by the time mounting is
    over. *)
Definition fires_on_attach (fn : nat) (el : HTMLCanvasElement) (dpr : num)
           (t0 : nat) : Prop :=
  exists o, renders (trace (mount fn el dpr t0)) = [o].


(** No timer is left pending once the hook is unmounted. *)
Definition teardown_cancels_pending (st : state) : Prop :=
  forall d, In d (heap (unmount st)) -> timeout d = None.

(** The hook is mounted for the callback [fn], with the closure at address
    [a] as its one resize listener. *)
Definition listening (a fn : nat) (st : state) : Prop :=
  canvas_current st = true /\
  listeners st = [a] /\
  exists d, heap st !! a = Some d /\ func d = fn /\ wait d = 250.

(** What holds of every state the hook goes through: the context was
    acquired, and the hook either listens with the closure of its committed
    effect or, unmounted, has no listener and no canvas. *)
Definition consistent (st : state) : Prop :=
  ctx_current st = Some Context2D /\
  match effect st with
  | Some (fn, a) => listening a fn st
  | None => canvas_current st = false /\ listeners st = []
  end.

(** The hook is unmounted. *)
Definition unmounted (st : state) : Prop :=
  effect st = None /\ canvas_current st = false /\ listeners st = [].

(** The timer of the listening closure [a] is pending and fires at [T]; the
    displayed size is [w] by [h] and the pixel density [dp]. *)
Definition armed (a fn T : nat) (w h dp : num)
           (ctx : option CanvasRenderingContext2D) (st : state) : Prop :=
  canvas_current st = true /\
  listeners st = [a] /\
  heap st !! a = Some (mkDebounced fn 250 (Some T)) /\
  offsetWidth (node st) = w /\
  offsetHeight (node st) = h /\
  devicePixelRatio st = dp /\
  ctx_current st = ctx /\
  now st < T.

(** No timer is pending in a closure other than [a]. *)
Definition quiet (a : nat) (st : state) : Prop :=
  forall b d, heap st !! b = Some d -> b <> a -> timeout d = None.

(** The timer of the closure [a], listening or not, is pending and fires at
    [T]; the canvas is attached, displayed at [w] by [h] with density [dp]. *)
Definition pending (a fn T : nat) (w h dp : num)
           (ctx : option CanvasRenderingContext2D) (st : state) : Prop :=
  canvas_current st = true /\
  heap st !! a = Some (mkDebounced fn 250 (Some T)) /\
  offsetWidth (node st) = w /\
  offsetHeight (node st) = h /\
  devicePixelRatio st = dp /\
  ctx_current st = ctx /\
  now st < T.

(** The closure [a] has no timer pending. *)
Definition disarmed (a : nat) (st : state) : Prop :=
  canvas_current st = true /\
  exists d, heap st !! a = Some d /\ timeout d = None.

(** An observation that, if it is a render, passed the context [ctx]. *)
Definition rendered_with (ctx : option CanvasRenderingContext2D)
           (o : nat * observation) : Prop :=
  match o.2 with
  | Render _ _ _ c => c = ctx
  | _ => True
  end.

(** An observation that, if it is made by the handler, is made at time [lo]
    or later. *)
Definition not_before (lo : nat) (o : nat * observation) : Prop :=
  match o.2 with
  | Recompute _ _ _ => lo <= o.1
  | Render _ _ _ _ => lo <= o.1
  | _ => True
  end.

(** Every closure waits 250 units, and no timer fires before [lo]. *)
Definition timers_from (lo : nat) (ds : list debounced) : Prop :=
  forall b d, ds !! b = Some d ->
    wait d = 250 /\ forall T, timeout d = Some T -> lo <= T.

End hook.

Arguments HTMLCanvasElement : clear implicits.
Arguments observation : clear implicits.
Arguments state : clear implicits.
Arguments event : clear implicits.
Arguments Tick {num}.
Arguments Unmount {num}.
Arguments Rerender {num} fn.
Arguments GetContext {num}.
Arguments Uncaught {num} e.
Arguments ticks {num} n.

End UseCanvas2d.


(** ** A concrete host: integer numbers, printed in decimal *)
Module Host.

Definition ToString : Z -> string := pretty.

(** On integers nothing is dropped. *)
Definition integer_part : Z -> Z := fun z => z.

(** A hook attached to element [7] of an otherwise empty document. *)
Definition attached : UseTransform.hook Z :=
  UseTransform.attach 7 (UseTransform.useTransform 0%Z ∅).

(** A hook whose element is not mounted yet. *)
Definition unattached : UseTransform.hook Z :=
  UseTransform.useTransform 0%Z ∅.

(** A 300 by 150 canvas on a display of pixel density 2, mounted at time 0
    with the render callback [1]. *)
Definition canvas0 : UseCanvas2d.HTMLCanvasElement Z :=
  UseCanvas2d.mkCanvas 300%Z 150%Z 0%Z 0%Z.

Definition mounted : UseCanvas2d.state Z := UseCanvas2d.mount 1 canvas0 2%Z 0.

(** One unit of time before the first timer fires. *)
Definition about_to_fire : UseCanvas2d.state Z :=
  UseCanvas2d.run Z.mul integer_part (UseCanvas2d.ticks 249) mounted.

(** Unmounted at time 100, and now one unit of time before the timer started
    at mounting fires. *)
Definition torn_down : UseCanvas2d.state Z :=
  UseCanvas2d.run Z.mul integer_part
    (UseCanvas2d.ticks 100 ++ [UseCanvas2d.Unmount] ++ UseCanvas2d.ticks 149)
    mounted.


End Host.

(** ** A concrete host with fractions: rational numbers *)
Module HostQ.

Import QArith_base.

(** The integer part of a rational, towards zero. *)
Definition integer_part (q : Q) : Z := Z.quot (Qnum q) (Z.pos (Qden q)).

(** A canvas displayed at 101 by 50 on a display of pixel density 3/2,
    mounted at time 0 with the render callback [1]. *)
Definition canvas0 : UseCanvas2d.HTMLCanvasElement Q :=
  UseCanvas2d.mkCanvas (Qmake 101 1) (Qmake 50 1) 0%Z 0%Z.

Definition mounted : UseCanvas2d.state Q :=
  UseCanvas2d.mount 1 canvas0 (Qmake 3 2) 0.

(** One unit of time before the first timer fires. *)
Definition about_to_fire : UseCanvas2d.state Q :=
  UseCanvas2d.run Qmult integer_part (UseCanvas2d.ticks 249) mounted.

(** After the next unit of time the canvas has, as its backing store, the
    displayed size times the pixel density, exactly. *)
Definition exactly_the_product (st : UseCanvas2d.state Q) : Prop :=
  let st' := UseCanvas2d.step Qmult integer_part UseCanvas2d.Tick st in
  Qeq (inject_Z (UseCanvas2d.width (UseCanvas2d.node st')))
      (Qmult (UseCanvas2d.offsetWidth (UseCanvas2d.node st'))
             (UseCanvas2d.devicePixelRatio st')) /\
  Qeq (inject_Z (UseCanvas2d.height (UseCanvas2d.node st')))
      (Qmult (UseCanvas2d.offsetHeight (UseCanvas2d.node st'))
             (UseCanvas2d.devicePixelRatio st')).

End HostQ.

(** * Properties of [useTransform] *)
Module UseTransformSpec.
Import UseTransform.

Local Open Scope string_scope.

Section spec.

Context {num : Type} (ToString : num -> string) (zero : num).

Implicit Types (h : hook num) (point local : gmap string (value num)).

Lemma lookup_Object_assign local point k :
  Object_assign local point !! k =
    match point !! k with
    | Some v => Some v
    | None => local !! k
    end.
Proof.
  unfold Object_assign. rewrite lookup_union.
  destruct (point !! k), (local !! k); reflexivity.
Qed.

Lemma get_Object_assign local point k :
  get (Object_assign local point) k =
    match point !! k with
    | Some v => v
    | None => get local k
    end.
Proof.
  unfold get. rewrite lookup_Object_assign.
  destruct (point !! k); reflexivity.
Qed.

(** What [set] does, in one equation. *)
Lemma set_unfold point h :
  set ToString point h =
    Ok (let local := Object_assign (local_current h) point in
        match ref_current h with
        | Some el =>
            mkHook (ref_current h) local
                   (<[ el := translate3d ToString local ]> (style_transform h))
                   (writes h ++ [(el, translate3d ToString local)])
        | None => mkHook None local (style_transform h) (writes h)
        end).
Proof.
  unfold set. simpl. destruct (ref_current h) as [el|] eqn:E; simpl.
  - reflexivity.
  - reflexivity.
Qed.

Lemma set_local point h h' :
  set ToString point h = Ok h' ->
  local_current h' = Object_assign (local_current h) point.
Proof.
  rewrite set_unfold. intros [= <-]. destruct (ref_current h); reflexivity.
Qed.

Lemma set_ref point h h' :
  set ToString point h = Ok h' -> ref_current h' = ref_current h.
Proof.
  rewrite set_unfold. intros [= <-]. destruct (ref_current h) eqn:E; simpl; congruence.
Qed.

(** C3. [set] is a patch of the retained point: it never throws, a field
    given in the argument takes the given value, and a field omitted from the
    argument keeps the value it had; a sequence of calls leaves the point
    that merges their arguments in order. In particular, from any state,
    [set({x: a})] followed by [set({y: b})] leaves the point equal to
    [(a, b)]. *)
Theorem set_merges_partial_update :
  (forall h point, exists h',
      set ToString point h = Ok h' /\
      forall k, local_current h' !! k =
                  match point !! k with
                  | Some v => Some v
                  | None => local_current h !! k
                  end) /\
  (forall points h, exists h',
      set_all ToString points h = Ok h' /\
      local_current h' = foldl Object_assign (local_current h) points) /\
  (forall h a b, exists h2,
      set ToString {[ "x" := a ]} h >>= set ToString {[ "y" := b ]} = Ok h2 /\
      local_current h2 !! "x" = Some a /\
      local_current h2 !! "y" = Some b /\
      get (local_current h2) "x" = a /\
      get (local_current h2) "y" = b).
Proof.
  split; [|split].
  - intros h point. destruct (set ToString point h) as [h'|e] eqn:E.
    + exists h'. split; [reflexivity|]. intros k.
      rewrite (set_local _ _ _ E). apply lookup_Object_assign.
    + rewrite set_unfold in E. discriminate.
  - intros points. induction points as [|point points IH]; intros h.
    + exists h. split; reflexivity.
    + destruct (set ToString point h) as [h1|e] eqn:E;
        [|rewrite set_unfold in E; discriminate].
      destruct (IH h1) as (h' & E' & L'). exists h'. simpl. rewrite E. simpl.
      split; [exact E'|]. rewrite L', (set_local _ _ _ E). reflexivity.
  - intros h a b.
    destruct (set ToString {[ "x" := a ]} h) as [h1|e] eqn:E1;
      [|rewrite set_unfold in E1; discriminate].
    destruct (set ToString {[ "y" := b ]} h1) as [h2|e] eqn:E2;
      [|rewrite set_unfold in E2; discriminate].
    exists h2. simpl. split; [exact E2|].
    pose proof (set_local _ _ _ E1) as L1.
    pose proof (set_local _ _ _ E2) as L2.
    assert (X : local_current h2 !! "x" = Some a).
    { rewrite L2, lookup_Object_assign, lookup_singleton_ne by done.
      rewrite L1, lookup_Object_assign, lookup_singleton_eq. reflexivity. }
    assert (Y : local_current h2 !! "y" = Some b).
    { rewrite L2, lookup_Object_assign, lookup_singleton_eq. reflexivity. }
    unfold get. rewrite X, Y. auto.
Qed.

(** C6. With an element attached, [set({x, y})] writes one style string onto
    that element, and the string is the [translate3d] offset of the merged
    point: [x] and [y] as given, and a third component that is the literal
    [0]. No other element is written. *)
Theorem set_writes_translate3d h el (x y : num) :
  ref_current h = Some el ->
  exists h',
    set ToString {[ "x" := number x; "y" := number y ]} h = Ok h' /\
    style_transform h' !! el =
      Some ("translate3d(" +:+ ToString x +:+ "px, " +:+ ToString y +:+ "px, 0)") /\
    writes h' =
      (writes h ++
       [(el, "translate3d(" +:+ ToString x +:+ "px, " +:+ ToString y +:+ "px, 0)")])%list /\
    delete el (style_transform h') = delete el (style_transform h) /\
    get (local_current h') "x" = number x /\
    get (local_current h') "y" = number y.
Proof.
  intros Hel. eexists. split.
  { rewrite set_unfold, Hel. reflexivity. }
  cbn [style_transform writes local_current].
  assert (X : get (Object_assign (local_current h)
                     {[ "x" := number x; "y" := number y ]}) "x" = number x).
  { rewrite get_Object_assign, lookup_insert_eq. reflexivity. }
  assert (Y : get (Object_assign (local_current h)
                     {[ "x" := number x; "y" := number y ]}) "y" = number y).
  { rewrite get_Object_assign, lookup_insert_ne by done.
    rewrite lookup_singleton_eq. reflexivity. }
  unfold translate3d. rewrite X, Y. simpl to_string.
  rewrite lookup_insert_eq, delete_insert_eq. auto.
Qed.

(** C7. With no element attached, [set] does not throw and writes no style,
    and the point is updated all the same: once an element is attached, the
    next [set] writes onto it the offset of the point that merges all the
    updates, those made while nothing was attached included. *)
Theorem set_unattached h point :
  ref_current h = None ->
  exists h',
    set ToString point h = Ok h' /\
    style_transform h' = style_transform h /\
    writes h' = writes h /\
    ref_current h' = None /\
    local_current h' = Object_assign (local_current h) point /\
    forall el q, exists h'',
      set ToString q (attach el h') = Ok h'' /\
      style_transform h'' !! el =
        Some (translate3d ToString
                (Object_assign (Object_assign (local_current h) point) q)) /\
      writes h'' =
        (writes h ++
         [(el, translate3d ToString
                 (Object_assign (Object_assign (local_current h) point) q))])%list.
Proof.
  intros Hnone. eexists. split.
  { rewrite set_unfold, Hnone. reflexivity. }
  cbn [style_transform writes local_current ref_current].
  repeat (split; [reflexivity|]).
  intros el q. eexists. split.
  { rewrite set_unfold. reflexivity. }
  cbn [attach style_transform writes local_current ref_current].
  rewrite lookup_insert_eq. split; reflexivity.
Qed.

(** C9. The patch guarantee is about fields that are absent: [set({x:
    undefined})] stores [undefined] as the [x] of the point, whatever it was,
    and the style written onto an attached element shows it; [set({})] leaves
    [x] as it was. *)
Theorem set_undefined_overwrites h :
  (exists h',
      set ToString {[ "x" := undefined ]} h = Ok h' /\
      local_current h' !! "x" = Some undefined /\
      get (local_current h') "x" = undefined /\
      get (local_current h') "y" = get (local_current h) "y" /\
      match ref_current h with
      | Some el =>
          style_transform h' !! el =
            Some ("translate3d(undefinedpx, "
                    +:+ to_string ToString (get (local_current h) "y") +:+ "px, 0)")
      | None => style_transform h' = style_transform h
      end) /\
  (exists h',
      set ToString ∅ h = Ok h' /\
      local_current h' !! "x" = local_current h !! "x" /\
      get (local_current h') "x" = get (local_current h) "x").
Proof.
  split.
  - eexists. split; [apply set_unfold|].
    assert (X : Object_assign (local_current h) {[ "x" := undefined ]} !! "x"
                = Some (undefined (num:=num))).
    { rewrite lookup_Object_assign, lookup_singleton_eq. reflexivity. }
    assert (Y : get (Object_assign (local_current h) {[ "x" := undefined ]}) "y"
                = get (local_current h) "y").
    { rewrite get_Object_assign, lookup_singleton_ne by done. reflexivity. }
    assert (Gx : get (Object_assign (local_current h) {[ "x" := undefined ]}) "x"
                 = undefined (num:=num)).
    { unfold get. rewrite X. reflexivity. }
    destruct (ref_current h) as [el|]; cbn [style_transform local_current].
    + rewrite lookup_insert_eq. unfold translate3d. rewrite X, Y, Gx.
      repeat (split; [reflexivity|]). reflexivity.
    + rewrite X, Y, Gx. repeat (split; [reflexivity|]). reflexivity.
  - eexists. split; [apply set_unfold|].
    assert (X : Object_assign (local_current h) ∅ !! "x" = local_current h !! "x").
    { rewrite lookup_Object_assign, lookup_empty. reflexivity. }
    destruct (ref_current h); cbn [local_current]; unfold get; rewrite X; auto.
Qed.

(** *** More about [set] *)

Lemma get_origin_x : get ({[ "x" := number zero; "y" := number zero ]}) "x" = number zero.
Proof. unfold get. rewrite lookup_insert_eq. reflexivity. Qed.

Lemma get_origin_y : get ({[ "x" := number zero; "y" := number zero ]}) "y" = number zero.
Proof.
  unfold get. rewrite lookup_insert_ne by done. rewrite lookup_singleton_eq.
  reflexivity.
Qed.

Lemma set_all_cons point points h :
  set_all ToString (point :: points) h
  = set ToString point h >>= set_all ToString points.
Proof. reflexivity. Qed.

(** X1. The point starts at the origin: on a hook that was just created and
    attached, the first [set] leaves, for each of [x] and [y], the value given
    in the argument or else [0], and writes that offset, once, onto the
    element. *)
Theorem first_set_starts_from_origin doc el point :
  exists h',
    set ToString point (attach el (useTransform zero doc)) = Ok h' /\
    get (local_current h') "x" =
      match point !! "x" with Some v => v | None => number zero end /\
    get (local_current h') "y" =
      match point !! "y" with Some v => v | None => number zero end /\
    style_transform h' !! el = Some (translate3d ToString (local_current h')) /\
    writes h' = [(el, translate3d ToString (local_current h'))].
Proof.
  eexists. split; [apply set_unfold|].
  cbn [attach useTransform ref_current local_current style_transform writes].
  rewrite !get_Object_assign, get_origin_x, get_origin_y, lookup_insert_eq.
  repeat split; reflexivity.
Qed.

(** X2. Two calls compose into one: [set(p)] followed by [set(q)] leaves the
    point and the reference exactly as the single call [set] of [p]
    overridden by [q] does, and the string it writes last is the string that
    single call writes; only the number of style writes differs, by one when
    an element is attached. In particular a call repeated with the same
    argument leaves the point as it is and writes the same string again. *)
Theorem set_composes h p q :
  exists h2 h12,
    set ToString p h >>= set ToString q = Ok h2 /\
    set ToString (Object_assign p q) h = Ok h12 /\
    local_current h2 = local_current h12 /\
    ref_current h2 = ref_current h12 /\
    last (writes h2) = last (writes h12) /\
    length (writes h2) =
      match ref_current h with
      | Some _ => S (length (writes h12))
      | None => length (writes h12)
      end /\
    exists h1 h11,
      set ToString p h = Ok h1 /\
      set ToString p h >>= set ToString p = Ok h11 /\
      local_current h11 = local_current h1 /\
      last (writes h11) = last (writes h1).
Proof.
  assert (A : forall l : gmap string (value num),
             Object_assign (Object_assign l p) q
             = Object_assign l (Object_assign p q)).
  { intros l. unfold Object_assign. apply (assoc_L (∪)). }
  assert (I : forall l : gmap string (value num),
             Object_assign (Object_assign l p) p = Object_assign l p).
  { intros l. unfold Object_assign. rewrite (assoc_L (∪)).
    rewrite (idemp_L (∪) p). reflexivity. }
  eexists. eexists. split.
  { rewrite set_unfold. simpl. rewrite set_unfold. reflexivity. }
  split; [apply set_unfold|].
  destruct (ref_current h) as [el|] eqn:E;
    cbn [ref_current local_current style_transform writes].
  - rewrite A, !last_snoc, !length_app. simpl.
    repeat (split; [reflexivity || lia|]).
    eexists. eexists. split; [rewrite set_unfold, E; reflexivity|].
    split; [rewrite set_unfold, E; simpl; rewrite set_unfold; reflexivity|].
    cbn [ref_current local_current style_transform writes].
    rewrite I, !last_snoc. split; reflexivity.
  - rewrite A. repeat (split; [reflexivity|]).
    eexists. eexists. split; [rewrite set_unfold, E; reflexivity|].
    split; [rewrite set_unfold, E; simpl; rewrite set_unfold; reflexivity|].
    cbn [ref_current local_current style_transform writes].
    rewrite I. split; reflexivity.
Qed.

(** X3. While an element stays attached, the writes follow the point: after
    any sequence of one or more calls to [set], the last style write was made
    onto that element with the offset of the point as it is now, and there
    was one style write per call. *)
Theorem set_all_keeps_style_current points : forall h el,
  ref_current h = Some el ->
  points <> [] ->
  exists h',
    set_all ToString points h = Ok h' /\
    ref_current h' = Some el /\
    local_current h' = foldl Object_assign (local_current h) points /\
    last (writes h') = Some (el, translate3d ToString (local_current h')) /\
    length (writes h') = length (writes h) + length points.
Proof.
  induction points as [|point points IH]; intros h el Hel Hne; [congruence|].
  rewrite set_all_cons, set_unfold, Hel. cbn [bind].
  destruct points as [|point' points].
  - eexists. split; [reflexivity|].
    cbn [ref_current local_current style_transform writes foldl].
    rewrite last_snoc, length_app. simpl.
    repeat split; try reflexivity; try assumption.
  - match goal with
    | |- context [set_all _ _ ?h1] =>
        destruct (IH h1 el) as (h' & E & R & L & S & W);
          [reflexivity|discriminate|]
    end.
    exists h'. split; [exact E|].
    cbn [ref_current local_current style_transform writes] in *.
    split; [exact R|]. split; [rewrite L; reflexivity|].
    split; [exact S|]. rewrite W, length_app. simpl. lia.
Qed.

(** X4. While no element is attached, no sequence of calls to [set] writes
    any style or throws, and the point still merges every argument, in
    order. *)
Theorem set_all_unattached points : forall h,
  ref_current h = None ->
  exists h',
    set_all ToString points h = Ok h' /\
    ref_current h' = None /\
    writes h' = writes h /\
    style_transform h' = style_transform h /\
    local_current h' = foldl Object_assign (local_current h) points.
Proof.
  induction points as [|point points IH]; intros h Hn.
  - exists h. repeat split; try reflexivity; assumption.
  - rewrite set_all_cons, set_unfold, Hn. cbn [bind].
    match goal with
    | |- context [set_all _ _ ?h1] =>
        destruct (IH h1) as (h' & E & R & W & S & L); [reflexivity|]
    end.
    exists h'. split; [exact E|].
    cbn [ref_current local_current style_transform writes] in *.
    repeat split; assumption.
Qed.

(** X5. The reference decides which element is written: when the hook moves
    from one element to another, the next [set] writes the offset of the
    whole merged point onto the new element and leaves the old element with
    the style it was last given. *)
Theorem set_after_reattach h el1 el2 p q :
  ref_current h = Some el1 ->
  el1 <> el2 ->
  exists h1 h2,
    set ToString p h = Ok h1 /\
    set ToString q (attach el2 h1) = Ok h2 /\
    style_transform h2 !! el1
      = Some (translate3d ToString (Object_assign (local_current h) p)) /\
    style_transform h2 !! el2
      = Some (translate3d ToString
                (Object_assign (Object_assign (local_current h) p) q)) /\
    writes h2 =
      (writes h
       ++ [(el1, translate3d ToString (Object_assign (local_current h) p));
           (el2, translate3d ToString
                   (Object_assign (Object_assign (local_current h) p) q))])%list.
Proof.
  intros H1 Hne. eexists. eexists.
  split; [rewrite set_unfold, H1; reflexivity|].
  split; [rewrite set_unfold; reflexivity|].
  cbn [attach ref_current local_current style_transform writes].
  rewrite lookup_insert_ne by congruence.
  rewrite !lookup_insert_eq, <- app_assoc. repeat split; reflexivity.
Qed.

(** X6. Only [x] and [y] reach the style: an argument with neither of them
    (an empty one, or one with other properties) has its properties stored in
    the point, yet the style written onto the attached element is the offset
    the point already had. *)
Theorem set_without_coordinates h el point :
  ref_current h = Some el ->
  point !! "x" = None ->
  point !! "y" = None ->
  exists h',
    set ToString point h = Ok h' /\
    style_transform h' !! el = Some (translate3d ToString (local_current h)) /\
    (forall k, local_current h' !! k =
                 match point !! k with
                 | Some v => Some v
                 | None => local_current h !! k
                 end).
Proof.
  intros Hel Hx Hy. eexists. split; [rewrite set_unfold, Hel; reflexivity|].
  cbn [local_current style_transform]. rewrite lookup_insert_eq.
  split; [|intros k; apply lookup_Object_assign].
  unfold translate3d. rewrite !get_Object_assign, Hx, Hy. reflexivity.
Qed.

End spec.

(** C6, on integers: [set({x: 5, y: 10})] on an attached element. *)
Lemma set_writes_translate3d_witness :
  exists h' : hook Z,
    set Host.ToString {[ "x" := number 5%Z; "y" := number 10%Z ]} Host.attached = Ok h' /\
    style_transform h' !! 7 = Some "translate3d(5px, 10px, 0)" /\
    writes h' = [(7, "translate3d(5px, 10px, 0)")].
Proof.
  destruct (set_writes_translate3d Host.ToString Host.attached 7 5%Z 10%Z)
    as (h' & E & S & W & _); [reflexivity|].
  exists h'. split; [exact E|]. split; [exact S|exact W].
Defined.

(** C7, on integers: [set({x: 3})] while nothing is attached, then the element
    [7] is attached and [set({y: 4})] is called. *)
Lemma set_unattached_witness :
  exists h' : hook Z,
    set Host.ToString {[ "x" := number 3%Z ]} Host.unattached = Ok h' /\
    writes h' = [] /\
    exists h'' : hook Z,
      set Host.ToString {[ "y" := number 4%Z ]} (attach 7 h') = Ok h'' /\
      style_transform h'' !! 7 = Some "translate3d(3px, 4px, 0)".
Proof.
  destruct (set_unattached Host.ToString Host.unattached {[ "x" := number 3%Z ]})
    as (h' & E & _ & W & _ & _ & Later); [reflexivity|].
  exists h'. split; [exact E|]. split; [exact W|].
  destruct (Later 7 {[ "y" := number 4%Z ]}) as (h'' & E' & S & _).
  exists h''. split; [exact E'|]. rewrite S. reflexivity.
Defined.

(** X3, on integers: three calls on the attached element [7]. *)
Lemma set_all_keeps_style_current_witness :
  exists h' : hook Z,
    set_all Host.ToString
      [ {[ "x" := number 1%Z ]}; {[ "y" := number 2%Z ]}; {[ "x" := number 3%Z ]} ]
      Host.attached = Ok h' /\
    last (writes h') = Some (7, "translate3d(3px, 2px, 0)") /\
    length (writes h') = 3.
Proof.
  destruct (set_all_keeps_style_current Host.ToString
              [ {[ "x" := number 1%Z ]}; {[ "y" := number 2%Z ]};
                {[ "x" := number 3%Z ]} ] Host.attached 7)
    as (h' & E & _ & L & S & W); [reflexivity|discriminate|].
  exists h'. split; [exact E|]. split; [|exact W].
  rewrite S, L. vm_compute. reflexivity.
Defined.

(** X4, on integers: two calls while nothing is attached. *)
Lemma set_all_unattached_witness :
  exists h' : hook Z,
    set_all Host.ToString
      [ {[ "x" := number 1%Z ]}; {[ "y" := number 2%Z ]} ] Host.unattached = Ok h' /\
    writes h' = [] /\
    get (local_current h') "x" = number 1%Z /\
    get (local_current h') "y" = number 2%Z.
Proof.
  destruct (set_all_unattached Host.ToString
              [ {[ "x" := number 1%Z ]}; {[ "y" := number 2%Z ]} ] Host.unattached)
    as (h' & E & _ & W & _ & L); [reflexivity|].
  exists h'. split; [exact E|]. split; [exact W|].
  rewrite L. split; vm_compute; reflexivity.
Defined.

(** X5, on integers: [set({x: 5})] on element [7], then the hook moves to
    element [8] and [set({y: 6})] is called. *)
Lemma set_after_reattach_witness :
  exists h1 h2 : hook Z,
    set Host.ToString {[ "x" := number 5%Z ]} Host.attached = Ok h1 /\
    set Host.ToString {[ "y" := number 6%Z ]} (attach 8 h1) = Ok h2 /\
    style_transform h2 !! 7 = Some "translate3d(5px, 0px, 0)" /\
    style_transform h2 !! 8 = Some "translate3d(5px, 6px, 0)".
Proof.
  destruct (set_after_reattach Host.ToString Host.attached 7 8
              {[ "x" := number 5%Z ]} {[ "y" := number 6%Z ]})
    as (h1 & h2 & E1 & E2 & S1 & S2 & _); [reflexivity|lia|].
  exists h1, h2. split; [exact E1|]. split; [exact E2|].
  rewrite S1, S2. split; vm_compute; reflexivity.
Defined.

(** X6, on integers: [set({z: 9})] on the attached element [7]. *)
Lemma set_without_coordinates_witness :
  exists h' : hook Z,
    set Host.ToString {[ "z" := number 9%Z ]} Host.attached = Ok h' /\
    style_transform h' !! 7 = Some "translate3d(0px, 0px, 0)" /\
    local_current h' !! "z" = Some (number 9%Z).
Proof.
  destruct (set_without_coordinates Host.ToString Host.attached 7
              {[ "z" := number 9%Z ]})
    as (h' & E & S & L); [reflexivity|reflexivity|reflexivity|].
  exists h'. split; [exact E|]. split; [rewrite S; vm_compute; reflexivity|].
  rewrite L. reflexivity.
Defined.

End UseTransformSpec.

(** * Properties of [useCanvas2d] *)
Module UseCanvas2dSpec.
Import UseCanvas2d.

Section spec.

Context {num : Type} (mul : num -> num -> num) (integer_part : num -> Z).

Implicit Types (st : state num) (d : debounced) (ds : list debounced).
Implicit Types (tr : list (nat * observation num)).

(** *** The canvas attributes *)

Lemma unsigned_long_small (default z : Z) :
  (0 <= z <= 2147483647)%Z -> unsigned_long default z = z.
Proof.
  intros H. unfold unsigned_long.
  rewrite Z.mod_small by (change (2 ^ 32)%Z with 4294967296%Z; lia).
  destruct (Z.leb_spec z 2147483647); [reflexivity|lia].
Qed.

Lemma unsigned_long_range (default z : Z) :
  (0 <= default <= 2147483647)%Z ->
  (0 <= unsigned_long default z <= 2147483647)%Z.
Proof.
  intros H. unfold unsigned_long.
  pose proof (Z.mod_pos_bound z (2 ^ 32)%Z eq_refl) as B.
  destruct (Z.leb_spec (z mod 2 ^ 32) 2147483647); lia.
Qed.

(** *** The event loop, one step at a time *)

Lemma run_app (evs1 evs2 : list (event num)) st :
  run mul integer_part (evs1 ++ evs2) st
  = run mul integer_part evs2 (run mul integer_part evs1 st).
Proof. revert st. induction evs1 as [|e evs1 IH]; intros st; simpl; auto. Qed.

Lemma run_ticks_S n st :
  run mul integer_part (ticks (S n)) st
  = run mul integer_part (ticks n) (tick mul integer_part st).
Proof. reflexivity. Qed.

Lemma later_attached who d st :
  canvas_current st = true ->
  later mul integer_part who d st =
    let c := recompute mul integer_part (node st) (devicePixelRatio st) in
    mkState (now st) (devicePixelRatio st) c true (ctx_current st)
            (hasFired_current st) (heap st) (listeners st) (effect st)
            (trace st ++ firing (now st) who (func d) c (ctx_current st)).
Proof.
  intros H. unfold later, handleCanvas_body. rewrite H.
  unfold observe, set_node, firing. simpl. rewrite H, <- app_assoc. reflexivity.
Qed.

Lemma later_detached who d st :
  canvas_current st = false ->
  later mul integer_part who d st = observe (Uncaught TypeError) st.
Proof. intros H. unfold later, handleCanvas_body. rewrite H. reflexivity. Qed.

Lemma recompute_again (c : HTMLCanvasElement num) dp :
  recompute mul integer_part (recompute mul integer_part c dp) dp
  = recompute mul integer_part c dp.
Proof. reflexivity. Qed.

(** Firing the due timers of an attached canvas. *)
Lemma fire_attached t ds : forall who st,
  canvas_current st = true ->
  now st = t ->
  fire mul integer_part t who ds st =
    mkState (now st) (devicePixelRatio st)
            (if existsb (due t) ds
             then recompute mul integer_part (node st) (devicePixelRatio st) else node st)
            true (ctx_current st) (hasFired_current st) (heap st)
            (listeners st) (effect st)
            (trace st ++ gain t who ds
                     (recompute mul integer_part (node st) (devicePixelRatio st))
                     (ctx_current st)).
Proof.
  induction ds as [|d ds IH]; intros who st Hc Hn.
  - simpl. rewrite app_nil_r. destruct st; simpl in *; subst; reflexivity.
  - simpl. destruct (due t d) eqn:Hd.
    + rewrite later_attached by assumption. rewrite IH by (simpl; auto).
      simpl. rewrite Hn, <- app_assoc.
      destruct (existsb (due t) ds); reflexivity.
    + rewrite IH by assumption. reflexivity.
Qed.

(** Firing the due timers when the canvas reference is unset: every one of
    them ends in an uncaught [TypeError]. *)
Lemma fire_detached t ds : forall who st,
  canvas_current st = false ->
  fire mul integer_part t who ds st =
    mkState (now st) (devicePixelRatio st) (node st) false (ctx_current st)
            (hasFired_current st) (heap st) (listeners st) (effect st)
            (trace st ++ map (fun _ => (now st, Uncaught TypeError))
                             (List.filter (due t) ds)).
Proof.
  induction ds as [|d ds IH]; intros who st Hc.
  - simpl. rewrite app_nil_r. destruct st; simpl in *; subst; reflexivity.
  - simpl. destruct (due t d) eqn:Hd.
    + rewrite later_detached by assumption. rewrite IH by (simpl; auto).
      simpl. rewrite <- app_assoc. reflexivity.
    + rewrite IH by assumption. reflexivity.
Qed.

Lemma tick_attached st :
  canvas_current st = true ->
  tick mul integer_part st =
    let t := S (now st) in
    let c := recompute mul integer_part (node st) (devicePixelRatio st) in
    mkState t (devicePixelRatio st)
            (if existsb (due t) (heap st) then c else node st)
            true (ctx_current st) (hasFired_current st)
            (map (expire t) (heap st)) (listeners st) (effect st)
            (trace st ++ gain t 0 (heap st) c (ctx_current st)).
Proof.
  intros Hc. unfold tick. rewrite fire_attached by reflexivity || assumption.
  reflexivity.
Qed.

Lemma tick_detached st :
  canvas_current st = false ->
  tick mul integer_part st =
    let t := S (now st) in
    mkState t (devicePixelRatio st) (node st) false (ctx_current st)
            (hasFired_current st) (map (expire t) (heap st)) (listeners st)
            (effect st)
            (trace st ++ map (fun _ => (t, Uncaught TypeError))
                             (List.filter (due t) (heap st))).
Proof.
  intros Hc. unfold tick. rewrite fire_detached by assumption. reflexivity.
Qed.

(** Calling the listeners only touches the timers. *)
Lemma calls_unfold (ls : list nat) : forall st,
  foldl (fun s a => call a s) st ls =
    set_heap (foldl (fun hp a => alter (restart (now st)) a hp) (heap st) ls) st.
Proof.
  induction ls as [|a ls IH]; intros st; simpl.
  - destruct st; reflexivity.
  - rewrite IH. reflexivity.
Qed.

Lemma resize_unfold w h dp st :
  resize w h dp st =
    mkState (now st) dp (mkCanvas w h (width (node st)) (height (node st)))
            (canvas_current st) (ctx_current st) (hasFired_current st)
            (foldl (fun hp a => alter (restart (now st)) a hp)
                   (heap st) (listeners st))
            (listeners st) (effect st) (trace st).
Proof. unfold resize. rewrite calls_unfold. reflexivity. Qed.

(** *** Observations of a trace *)

Lemma gain_acquisitions t ds (c : HTMLCanvasElement num) ctx : forall who,
  acquisitions (gain t who ds c ctx) = [].
Proof.
  induction ds as [|d ds IH]; intros who; simpl; [reflexivity|].
  unfold acquisitions in *. rewrite List.filter_app, IH.
  destruct (due t d); reflexivity.
Qed.

Lemma uncaught_acquisitions (t : nat) ds :
  acquisitions (map (fun _ => (t, Uncaught (num:=num) TypeError)) ds) = [].
Proof. induction ds; simpl; auto. Qed.

Lemma uncaught_renders (t : nat) ds :
  renders (map (fun _ => (t, Uncaught (num:=num) TypeError)) ds) = [].
Proof. induction ds; simpl; auto. Qed.

(** The observations of the closure at address [a] among those of one
    tick. *)
Lemma pick_head a t d ds (c : HTMLCanvasElement num) ctx :
  match (d :: ds) !! (a - a) with
  | Some d' => if (a <=? a) && due t d' then firing t a (func d') c ctx else []
  | None => []
  end = if due t d then firing t a (func d) c ctx else [].
Proof. rewrite Nat.sub_diag, Nat.leb_refl. reflexivity. Qed.

Lemma pick_none a who t ds (c : HTMLCanvasElement num) ctx :
  a < who ->
  match ds !! (a - who) with
  | Some d' => if (who <=? a) && due t d' then firing t a (func d') c ctx else []
  | None => []
  end = [].
Proof.
  intros Hlt. assert (E : (who <=? a) = false) by (apply Nat.leb_gt; lia).
  rewrite E. destruct (ds !! (a - who)); reflexivity.
Qed.

Lemma pick_tail a who t d ds (c : HTMLCanvasElement num) ctx :
  who < a ->
  match (d :: ds) !! (a - who) with
  | Some d' => if (who <=? a) && due t d' then firing t a (func d') c ctx else []
  | None => []
  end =
  match ds !! (a - S who) with
  | Some d' => if (S who <=? a) && due t d' then firing t a (func d') c ctx else []
  | None => []
  end.
Proof.
  intros Hlt.
  assert (E1 : (S who <=? a) = true) by (apply Nat.leb_le; lia).
  assert (E2 : (who <=? a) = true) by (apply Nat.leb_le; lia).
  assert (Hs : a - who = S (a - S who)) by lia.
  rewrite E1, E2, Hs. reflexivity.
Qed.

(** The observations of the closure at address [a] among those of one
    tick. *)
Lemma gain_by_handler a t ds (c : HTMLCanvasElement num) ctx : forall who,
  by_handler a (gain t who ds c ctx) =
    match ds !! (a - who) with
    | Some d =>
        if (who <=? a) && due t d then firing t a (func d) c ctx else []
    | None => []
    end.
Proof.
  induction ds as [|d ds IH]; intros who; [reflexivity|].
  cbn [gain]. unfold by_handler in *. rewrite List.filter_app, IH.
  destruct (lt_eq_lt_dec who a) as [[Hlt| ->]|Hgt].
  - rewrite (pick_tail a who) by assumption.
    assert (Hnone : List.filter (fired_by a)
                      (if due t d then firing t who (func d) c ctx else []) = []).
    { destruct (due t d); simpl; [|reflexivity].
      unfold fired_by; simpl.
      assert (E : (who =? a) = false) by (apply Nat.eqb_neq; lia).
      rewrite E. reflexivity. }
    rewrite Hnone. reflexivity.
  - rewrite pick_head, (pick_none a (S a)) by lia. rewrite app_nil_r.
    destruct (due t d); simpl; [|reflexivity].
    unfold fired_by; simpl. rewrite Nat.eqb_refl. reflexivity.
  - rewrite (pick_none a who), (pick_none a (S who)) by lia.
    rewrite app_nil_r.
    destruct (due t d); simpl; [|reflexivity].
    unfold fired_by; simpl.
    assert (E : (who =? a) = false) by (apply Nat.eqb_neq; lia).
    rewrite E. reflexivity.
Qed.

(** With no other timer pending, these are all the observations of the
    tick. *)
Lemma gain_quiet a t ds (c : HTMLCanvasElement num) ctx : forall who,
  (forall k d, ds !! k = Some d -> who + k <> a -> timeout d = None) ->
  gain t who ds c ctx =
    match ds !! (a - who) with
    | Some d =>
        if (who <=? a) && due t d then firing t a (func d) c ctx else []
    | None => []
    end.
Proof.
  induction ds as [|d ds IH]; intros who Hq; [reflexivity|].
  cbn [gain].
  rewrite IH by (intros k d' Hk Hne; apply (Hq (S k) d'); [exact Hk|lia]).
  destruct (lt_eq_lt_dec who a) as [[Hlt| ->]|Hgt].
  - rewrite (pick_tail a who) by assumption.
    assert (Hd : due t d = false).
    { unfold due. rewrite (Hq 0 d); [reflexivity|reflexivity|lia]. }
    rewrite Hd. reflexivity.
  - rewrite pick_head, (pick_none a (S a)) by lia. apply app_nil_r.
  - rewrite (pick_none a who), (pick_none a (S who)) by lia.
    assert (Hd : due t d = false).
    { unfold due. rewrite (Hq 0 d); [reflexivity|reflexivity|lia]. }
    rewrite Hd. reflexivity.
Qed.

(** *** The states the hook goes through *)

Lemma lookup_map (f : debounced -> debounced) ds (i : nat) :
  map f ds !! i = f <$> ds !! i.
Proof.
  revert i. induction ds as [|d ds IH]; intros [|i]; simpl; auto.
Qed.

Lemma expire_func t d : func (expire t d) = func d.
Proof. unfold expire. destruct (due t d); reflexivity. Qed.

Lemma expire_wait t d : wait (expire t d) = wait d.
Proof. unfold expire. destruct (due t d); reflexivity. Qed.

Lemma expire_not_due t d : due t d = false -> expire t d = d.
Proof. unfold expire. intros ->. reflexivity. Qed.

Lemma expire_idle t d : timeout d = None -> expire t d = d.
Proof. intros H. apply expire_not_due. unfold due. rewrite H. reflexivity. Qed.

Lemma tick_canvas_current st : canvas_current (tick mul integer_part st) = canvas_current st.
Proof.
  destruct (canvas_current st) eqn:Hc.
  - rewrite tick_attached by assumption. reflexivity.
  - rewrite tick_detached by assumption. reflexivity.
Qed.

Lemma tick_frame st :
  now (tick mul integer_part st) = S (now st) /\
  heap (tick mul integer_part st) = map (expire (S (now st))) (heap st) /\
  listeners (tick mul integer_part st) = listeners st /\
  effect (tick mul integer_part st) = effect st /\
  ctx_current (tick mul integer_part st) = ctx_current st /\
  hasFired_current (tick mul integer_part st) = hasFired_current st /\
  devicePixelRatio (tick mul integer_part st) = devicePixelRatio st /\
  offsetWidth (node (tick mul integer_part st)) = offsetWidth (node st) /\
  offsetHeight (node (tick mul integer_part st)) = offsetHeight (node st).
Proof.
  destruct (canvas_current st) eqn:Hc.
  - rewrite tick_attached by assumption. cbn zeta. cbn [now heap listeners effect
      ctx_current hasFired_current devicePixelRatio node].
    destruct (existsb _ _); repeat split; reflexivity.
  - rewrite tick_detached by assumption. repeat split; reflexivity.
Qed.

Lemma listening_resize a fn w h dp st :
  listening a fn st ->
  resize w h dp st =
    mkState (now st) dp (mkCanvas w h (width (node st)) (height (node st)))
            true (ctx_current st) (hasFired_current st)
            (alter (restart (now st)) a (heap st)) [a] (effect st) (trace st).
Proof.
  intros (Hc & Hl & _). rewrite resize_unfold, Hc, Hl. reflexivity.
Qed.

Lemma effect_resize_listening fn st :
  canvas_current st = true ->
  listeners st = [] ->
  listening (length (heap st)) fn (effect_resize fn st) /\
  effect (effect_resize fn st) = Some (fn, length (heap st)) /\
  ctx_current (effect_resize fn st) = ctx_current st.
Proof.
  intros Hc Hl. unfold effect_resize, listening.
  destruct (hasFired_current st) eqn:Hf; simpl; rewrite ?Hf; simpl; rewrite Hc, Hl.
  - repeat split; try reflexivity.
    exists (debounce fn 250). rewrite list_lookup_middle by reflexivity. auto.
  - repeat split; try reflexivity.
    exists (restart (now st) (debounce fn 250)).
    rewrite list_lookup_alter_eq, list_lookup_middle by reflexivity. auto.
Qed.

Lemma mount_consistent fn (el : HTMLCanvasElement num) dp t0 :
  consistent (mount fn el dp t0).
Proof.
  unfold consistent, listening. simpl. repeat split; try reflexivity.
  eexists. repeat split; reflexivity.
Qed.

Lemma step_consistent (e : event num) st :
  consistent st -> consistent (step mul integer_part e st).
Proof.
  intros [Hctx Hinv]. destruct e as [w h dp| |fn'|]; simpl.
  - (* resize *)
    destruct (effect st) as [[fn a]|] eqn:He.
    + rewrite (listening_resize a fn) by assumption.
      unfold consistent; simpl. rewrite He. split; [assumption|].
      destruct Hinv as (Hc & Hl & d & Hd & Hf & Hw).
      unfold listening; simpl. repeat split.
      exists (restart (now st) d). rewrite list_lookup_alter_eq, Hd. auto.
    + destruct Hinv as [Hc Hl]. rewrite resize_unfold, Hl.
      unfold consistent; simpl. rewrite He. auto.
  - (* tick *)
    destruct (tick_frame st) as (_ & Hh & Hl & He & Hx & _).
    unfold consistent. rewrite He, Hx. split; [assumption|].
    destruct (effect st) as [[fn a]|].
    + destruct Hinv as (Hc & Hl' & d & Hd & Hf & Hw).
      unfold listening. rewrite tick_canvas_current, Hl, Hh.
      repeat split; try assumption.
      exists (expire (S (now st)) d).
      rewrite lookup_map, Hd, expire_func, expire_wait. auto.
    + rewrite tick_canvas_current, Hl. assumption.
  - (* rerender *)
    unfold rerender. destruct (effect st) as [[fn a]|] eqn:He.
    + destruct (fn =? fn').
      * unfold consistent. rewrite He. auto.
      * destruct Hinv as (Hc & Hl & _).
        destruct (effect_resize_listening fn' (cleanup_resize a st))
          as (L & E & X).
        { exact Hc. }
        { simpl. rewrite Hl. simpl. rewrite Nat.eqb_refl. reflexivity. }
        unfold consistent. rewrite E, X. auto.
    + unfold consistent. rewrite He. auto.
  - (* unmount *)
    unfold unmount. destruct (effect st) as [[fn a]|] eqn:He.
    + destruct Hinv as (Hc & Hl & _).
      unfold consistent; simpl. rewrite Hl. simpl. rewrite Nat.eqb_refl. auto.
    + unfold consistent. rewrite He. auto.
Qed.

Lemma run_consistent (evs : list (event num)) : forall st,
  consistent st -> consistent (run mul integer_part evs st).
Proof.
  induction evs as [|e evs IH]; intros st H; simpl; [assumption|].
  apply IH, step_consistent, H.
Qed.

(** *** What a step adds to the trace *)

Lemma effect_resize_trace fn st : trace (effect_resize fn st) = trace st.
Proof.
  unfold effect_resize. destruct (hasFired_current st) eqn:E; simpl; rewrite E; reflexivity.
Qed.

Lemma effect_resize_ctx fn st : ctx_current (effect_resize fn st) = ctx_current st.
Proof.
  unfold effect_resize. destruct (hasFired_current st) eqn:E; simpl; rewrite E; reflexivity.
Qed.

Lemma step_acquisitions (e : event num) st :
  acquisitions (trace (step mul integer_part e st)) = acquisitions (trace st) /\
  ctx_current (step mul integer_part e st) = ctx_current st.
Proof.
  destruct e as [w h dp| |fn'|]; simpl.
  - rewrite resize_unfold. split; reflexivity.
  - destruct (canvas_current st) eqn:Hc.
    + rewrite tick_attached by assumption. simpl.
      unfold acquisitions. rewrite List.filter_app.
      fold (acquisitions (gain (S (now st)) 0 (heap st)
              (recompute mul integer_part (node st) (devicePixelRatio st)) (ctx_current st))).
      rewrite gain_acquisitions, app_nil_r. split; reflexivity.
    + rewrite tick_detached by assumption. simpl.
      unfold acquisitions. rewrite List.filter_app.
      fold (acquisitions (map (fun _ => (S (now st), Uncaught (num:=num) TypeError))
              (List.filter (due (S (now st))) (heap st)))).
      rewrite uncaught_acquisitions, app_nil_r. split; reflexivity.
  - unfold rerender. destruct (effect st) as [[fn a]|]; [|split; reflexivity].
    destruct (fn =? fn'); [split; reflexivity|].
    rewrite effect_resize_trace, effect_resize_ctx. split; reflexivity.
  - unfold unmount. destruct (effect st) as [[fn a]|]; split; reflexivity.
Qed.

Lemma handleCanvas_body_recomputes fn who st st' :
  handleCanvas_body mul integer_part fn who st = Ok st' ->
  width (node st')
    = stored integer_part 300 (mul (offsetWidth (node st)) (devicePixelRatio st)) /\
  height (node st')
    = stored integer_part 150 (mul (offsetHeight (node st)) (devicePixelRatio st)) /\
  offsetWidth (node st') = offsetWidth (node st) /\
  offsetHeight (node st') = offsetHeight (node st) /\
  devicePixelRatio st' = devicePixelRatio st.
Proof.
  unfold handleCanvas_body. destruct (canvas_current st); [|discriminate].
  intros [= <-]. repeat split; reflexivity.
Qed.

(** *** Waiting for a pending timer *)

Lemma idle_gain t ds (c : HTMLCanvasElement num) ctx : forall who,
  (forall k d, ds !! k = Some d -> timeout d = None) ->
  gain t who ds c ctx = [].
Proof.
  induction ds as [|d ds IH]; intros who Hq; [reflexivity|].
  cbn [gain]. rewrite IH by (intros k d' Hk; apply (Hq (S k) d'), Hk).
  unfold due. rewrite (Hq 0 d) by reflexivity. reflexivity.
Qed.

Lemma idle_due t ds :
  (forall k d, ds !! k = Some d -> timeout d = None) ->
  List.filter (due t) ds = [].
Proof.
  induction ds as [|d ds IH]; intros Hq; [reflexivity|].
  simpl. rewrite IH by (intros k d' Hk; apply (Hq (S k) d'), Hk).
  unfold due. rewrite (Hq 0 d) by reflexivity. reflexivity.
Qed.

Lemma idle_expire t ds :
  (forall k d, ds !! k = Some d -> timeout d = None) ->
  map (expire t) ds = ds.
Proof.
  induction ds as [|d ds IH]; intros Hq; [reflexivity|].
  simpl. rewrite IH by (intros k d' Hk; apply (Hq (S k) d'), Hk).
  rewrite expire_idle by (apply (Hq 0 d); reflexivity). reflexivity.
Qed.

Lemma idle_tick st :
  idle st -> idle (tick mul integer_part st) /\ trace (tick mul integer_part st) = trace st.
Proof.
  intros Hi. destruct (tick_frame st) as (_ & Hh & _).
  split.
  - unfold idle. rewrite Hh, idle_expire by exact Hi. exact Hi.
  - destruct (canvas_current st) eqn:Hc.
    + rewrite tick_attached by assumption. simpl.
      rewrite idle_gain by exact Hi. apply app_nil_r.
    + rewrite tick_detached by assumption. simpl.
      rewrite idle_due by exact Hi. apply app_nil_r.
Qed.

Lemma idle_ticks n : forall st,
  idle st -> idle (run mul integer_part (ticks n) st) /\
  trace (run mul integer_part (ticks n) st) = trace st.
Proof.
  induction n as [|n IH]; intros st Hi; [split; [assumption|reflexivity]|].
  rewrite run_ticks_S. destruct (idle_tick st Hi) as [Hi' Ht].
  destruct (IH _ Hi') as [Hi'' Ht']. split; [assumption|congruence].
Qed.

Lemma armed_listening a fn T w h dp ctx st :
  armed a fn T w h dp ctx st -> listening a fn st.
Proof.
  intros (Hc & Hl & Hd & _). repeat split; try assumption.
  eexists. split; [exact Hd|]. split; reflexivity.
Qed.

Lemma quiet_expire a t st :
  quiet a st -> quiet a (set_heap (map (expire t) (heap st)) st).
Proof.
  intros Hq b d Hb Hne. simpl in Hb. rewrite lookup_map in Hb.
  destruct (heap st !! b) as [d0|] eqn:E; [|discriminate].
  injection Hb as <-. rewrite expire_idle; eauto.
Qed.

(** One unit of time passes and the timer of [a] is not due yet. *)
Lemma armed_tick_wait a fn T w h dp ctx st :
  armed a fn T w h dp ctx st ->
  S (now st) < T ->
  armed a fn T w h dp ctx (tick mul integer_part st) /\
  now (tick mul integer_part st) = S (now st) /\
  by_handler a (trace (tick mul integer_part st)) = by_handler a (trace st) /\
  (quiet a st -> quiet a (tick mul integer_part st) /\
  trace (tick mul integer_part st) = trace st).
Proof.
  intros (Hc & Hl & Hd & Hw & Hh & Hp & Hx & Hn) Hlt.
  assert (Hnd : due (S (now st)) (mkDebounced fn 250 (Some T)) = false).
  { unfold due. simpl. apply Nat.eqb_neq. lia. }
  destruct (tick_frame st) as (Fn & Fh & Fl & Fe & Fx & Ff & Fp & Fw & Fhh).
  split; [|split; [|split]].
  - unfold armed. rewrite tick_canvas_current, Fl, Fh, Fw, Fhh, Fp, Fx, Fn.
    assert (Hd' : map (expire (S (now st))) (heap st) !! a
                  = Some (mkDebounced fn 250 (Some T))).
    { rewrite lookup_map, Hd. simpl. rewrite expire_not_due by assumption.
      reflexivity. }
    repeat split; try assumption; lia.
  - exact Fn.
  - rewrite tick_attached by assumption. simpl.
    unfold by_handler. rewrite List.filter_app.
    fold (by_handler a (gain (S (now st)) 0 (heap st)
            (recompute mul integer_part (node st) (devicePixelRatio st)) (ctx_current st))).
    rewrite gain_by_handler, Nat.sub_0_r, Hd, Hnd, andb_false_r. apply app_nil_r.
  - intros Hq. split.
    + intros b d Hb Hne. rewrite Fh in Hb.
      apply (quiet_expire a (S (now st)) st Hq b d); assumption.
    + rewrite tick_attached by assumption. simpl.
      rewrite (gain_quiet a) by (intros k d Hk Hne; apply (Hq k d); assumption).
      rewrite Nat.sub_0_r, Hd, Hnd, andb_false_r. apply app_nil_r.
Qed.

(** Time passes, less than it takes for the timer of [a] to be due. *)
Lemma armed_ticks_wait a fn T w h dp ctx n : forall st,
  armed a fn T w h dp ctx st ->
  now st + n < T ->
  armed a fn T w h dp ctx (run mul integer_part (ticks n) st) /\
  now (run mul integer_part (ticks n) st) = now st + n /\
  by_handler a (trace (run mul integer_part (ticks n) st)) = by_handler a (trace st) /\
  (quiet a st ->
   quiet a (run mul integer_part (ticks n) st) /\
   trace (run mul integer_part (ticks n) st) = trace st).
Proof.
  induction n as [|n IH]; intros st Ha Hlt.
  - simpl. split; [assumption|]. split; [lia|]. split; [reflexivity|].
    intros Hq. split; [assumption|reflexivity].
  - rewrite run_ticks_S.
    destruct (armed_tick_wait _ _ _ _ _ _ _ _ Ha) as (Ha' & Hn' & Hb' & Hq'); [lia|].
    destruct (IH _ Ha') as (Ha2 & Hn2 & Hb2 & Hq2); [lia|].
    split; [exact Ha2|]. split; [lia|]. split; [congruence|].
    intros Hq. destruct (Hq' Hq) as [Q1 T1]. destruct (Hq2 Q1) as [Q2 T2].
    split; [exact Q2|congruence].
Qed.

(** The unit of time passes at whose end the timer of [a] fires. *)
Lemma armed_tick_fire a fn T w h dp ctx st :
  armed a fn T w h dp ctx st ->
  S (now st) = T ->
  by_handler a (trace (tick mul integer_part st)) =
    by_handler a (trace st)
    ++ firing T a fn (mkCanvas w h
          (stored integer_part 300 (mul w dp))
          (stored integer_part 150 (mul h dp))) ctx /\
  (quiet a st ->
   trace (tick mul integer_part st) =
     trace st ++ firing T a fn (mkCanvas w h
           (stored integer_part 300 (mul w dp))
           (stored integer_part 150 (mul h dp))) ctx /\
   idle (tick mul integer_part st)).
Proof.
  intros (Hc & Hl & Hd & Hw & Hh & Hp & Hx & Hn) HT.
  assert (Hdue : due (S (now st)) (mkDebounced fn 250 (Some T)) = true).
  { unfold due. simpl. apply Nat.eqb_eq. lia. }
  assert (Hrec : recompute mul integer_part (node st) (devicePixelRatio st)
                 = mkCanvas w h
                       (stored integer_part 300 (mul w dp))
                       (stored integer_part 150 (mul h dp))).
  { unfold recompute. simpl. rewrite Hw, Hh, Hp. reflexivity. }
  split.
  - rewrite tick_attached by assumption. simpl.
    unfold by_handler. rewrite List.filter_app.
    fold (by_handler a (gain (S (now st)) 0 (heap st)
            (recompute mul integer_part (node st) (devicePixelRatio st)) (ctx_current st))).
    rewrite gain_by_handler, Nat.sub_0_r, Hd, Hdue, Hrec, Hx, HT. reflexivity.
  - intros Hq. split.
    + rewrite tick_attached by assumption. simpl.
      rewrite (gain_quiet a) by (intros k d Hk Hne; apply (Hq k d); assumption).
      rewrite Nat.sub_0_r, Hd, Hdue, Hrec, Hx, HT. reflexivity.
    + destruct (tick_frame st) as (_ & Fh & _).
      intros b d Hb. rewrite Fh, lookup_map in Hb.
      destruct (heap st !! b) as [d0|] eqn:E; [|discriminate].
      injection Hb as <-.
      destruct (Nat.eq_dec b a) as [->|Hne].
      * rewrite Hd in E. injection E as <-. unfold expire. rewrite Hdue. reflexivity.
      * rewrite expire_idle; eauto.
Qed.

Lemma run_ticks_snoc n : forall st,
  run mul integer_part (ticks (S n)) st
  = tick mul integer_part (run mul integer_part (ticks n) st).
Proof.
  induction n as [|n IH]; intros st; [reflexivity|].
  rewrite run_ticks_S, IH. reflexivity.
Qed.

Lemma run_ticks_add n m st :
  run mul integer_part (ticks (n + m)) st
  = run mul integer_part (ticks m) (run mul integer_part (ticks n) st).
Proof. unfold ticks. rewrite replicate_add. apply run_app. Qed.

(** The timer of [a] is left alone until it fires. *)
Lemma armed_quiescence a fn T w h dp ctx st :
  armed a fn T w h dp ctx st ->
  by_handler a (trace (run mul integer_part (ticks (T - now st)) st)) =
    by_handler a (trace st)
    ++ firing T a fn (mkCanvas w h
          (stored integer_part 300 (mul w dp))
          (stored integer_part 150 (mul h dp))) ctx /\
  (quiet a st ->
   trace (run mul integer_part (ticks (T - now st)) st) =
     trace st ++ firing T a fn (mkCanvas w h
           (stored integer_part 300 (mul w dp))
           (stored integer_part 150 (mul h dp))) ctx /\
   idle (run mul integer_part (ticks (T - now st)) st)).
Proof.
  intros Ha. assert (Hn : now st < T) by apply Ha.
  replace (T - now st) with (S (T - now st - 1)) by lia.
  rewrite run_ticks_snoc.
  destruct (armed_ticks_wait _ _ _ _ _ _ _ (T - now st - 1) st Ha)
    as (Ha' & Hn' & Hb' & Hq'); [lia|].
  destruct (armed_tick_fire _ _ _ _ _ _ _ _ Ha') as [Hb Hq]; [lia|].
  split; [congruence|].
  intros Q. destruct (Hq' Q) as [Q' T']. destruct (Hq Q') as [T'' I].
  split; [congruence|exact I].
Qed.

(** A resize event restarts the timer of the listening closure, and of no
    other. *)
Lemma listening_resize_armed a fn w h dp st :
  listening a fn st ->
  armed a fn (now st + 250) w h dp (ctx_current st) (resize w h dp st) /\
  now (resize w h dp st) = now st /\
  trace (resize w h dp st) = trace st /\
  (quiet a st -> quiet a (resize w h dp st)).
Proof.
  intros L. rewrite (listening_resize a fn) by assumption.
  destruct L as (Hc & Hl & d & Hd & Hf & Hw).
  split; [|split; [reflexivity|split; [reflexivity|]]].
  - unfold armed; simpl. rewrite list_lookup_alter_eq, Hd. simpl.
    unfold restart. rewrite Hf, Hw. repeat split; lia.
  - intros Hq b d' Hb Hne. simpl in Hb.
    rewrite list_lookup_alter_ne in Hb by congruence. eauto.
Qed.

(** A burst of resize events, each less than the delay after the one before:
    the timer is restarted by each of them and never fires in between. *)
Lemma burst_armed a fn (more : list (nat * (num * num * num))) :
  forall first st,
  listening a fn st ->
  Forall (fun g => g.1 < 250) more ->
  armed a fn (now st + span more + 250)
        (last_resize first more).1.1 (last_resize first more).1.2
        (last_resize first more).2 (ctx_current st)
        (run mul integer_part (burst first more) st) /\
  by_handler a (trace (run mul integer_part (burst first more) st))
    = by_handler a (trace st) /\
  (quiet a st ->
   quiet a (run mul integer_part (burst first more) st) /\
   trace (run mul integer_part (burst first more) st) = trace st).
Proof.
  induction more as [|[gap next] more IH]; intros first st L Hgaps.
  - destruct (listening_resize_armed a fn first.1.1 first.1.2 first.2 st L)
      as (Ha & Hn & Ht & Hq).
    simpl. unfold span; simpl. rewrite Nat.add_0_r.
    split; [exact Ha|]. split; [congruence|].
    intros Q. split; [auto|exact Ht].
  - destruct (listening_resize_armed a fn first.1.1 first.1.2 first.2 st L)
      as (Ha & Hn & Ht & Hq).
    apply Forall_cons in Hgaps as [Hgap Hgaps]. simpl in Hgap.
    cbn [burst run step]. rewrite run_app.
    destruct (armed_ticks_wait _ _ _ _ _ _ _ gap _ Ha) as (Ha' & Hn' & Hb' & Hq');
      [lia|].
    pose proof (armed_listening _ _ _ _ _ _ _ _ Ha') as L'.
    destruct (IH next _ L' Hgaps) as (Ha2 & Hb2 & Hq2).
    assert (Hx : ctx_current (run mul integer_part (ticks gap)
                   (resize first.1.1 first.1.2 first.2 st)) = ctx_current st)
      by apply Ha'.
    rewrite Hx in Ha2.
    replace (now st + span ((gap, next) :: more) + 250)
      with (now (run mul integer_part (ticks gap) (resize first.1.1 first.1.2 first.2 st))
            + span more + 250)
      by (unfold span; simpl; lia).
    split; [exact Ha2|]. split; [congruence|].
    intros Q. destruct (Hq' (Hq Q)) as [Q1 T1]. destruct (Hq2 Q1) as [Q2 T2].
    split; [exact Q2|congruence].
Qed.

Lemma burst_now a fn (more : list (nat * (num * num * num))) :
  forall first st,
  listening a fn st ->
  Forall (fun g => g.1 < 250) more ->
  now (run mul integer_part (burst first more) st) = now st + span more.
Proof.
  induction more as [|[gap next] more IH]; intros first st L Hgaps.
  - destruct (listening_resize_armed a fn first.1.1 first.1.2 first.2 st L)
      as (Ha & Hn & Ht & Hq).
    simpl. unfold span; simpl. lia.
  - destruct (listening_resize_armed a fn first.1.1 first.1.2 first.2 st L)
      as (Ha & Hn & Ht & Hq).
    apply Forall_cons in Hgaps as [Hgap Hgaps]. simpl in Hgap.
    cbn [burst run step]. rewrite run_app.
    destruct (armed_ticks_wait _ _ _ _ _ _ _ gap _ Ha) as (Ha' & Hn' & Hb' & Hq');
      [lia|].
    pose proof (armed_listening _ _ _ _ _ _ _ _ Ha') as L'.
    rewrite (IH next _ L' Hgaps). unfold span; simpl. fold (span more). lia.
Qed.

Lemma existsb_due t ds (a : nat) d :
  ds !! a = Some d -> due t d = true -> existsb (due t) ds = true.
Proof.
  revert a. induction ds as [|d0 ds IH]; intros [|a] H Hd; simpl in *;
    try discriminate.
  - injection H as ->. rewrite Hd. reflexivity.
  - rewrite (IH a H Hd). apply orb_true_r.
Qed.

Lemma armed_tick_fire_node a fn T w h dp ctx st :
  armed a fn T w h dp ctx st ->
  S (now st) = T ->
  node (tick mul integer_part st) = mkCanvas w h
        (stored integer_part 300 (mul w dp))
        (stored integer_part 150 (mul h dp)) /\
  devicePixelRatio (tick mul integer_part st) = dp.
Proof.
  intros (Hc & Hl & Hd & Hw & Hh & Hp & Hx & Hn) HT.
  assert (Hdue : due (S (now st)) (mkDebounced fn 250 (Some T)) = true).
  { unfold due. simpl. apply Nat.eqb_eq. lia. }
  rewrite tick_attached by assumption. simpl.
  rewrite (existsb_due _ _ _ _ Hd Hdue).
  unfold recompute. simpl. rewrite Hw, Hh, Hp. split; reflexivity.
Qed.

(** *** After teardown *)

Lemma no_timer_started_refl ds : no_timer_started ds ds.
Proof. intros b d H _. exact H. Qed.

Lemma no_timer_started_trans ds1 ds2 ds3 :
  no_timer_started ds1 ds2 -> no_timer_started ds2 ds3 -> no_timer_started ds1 ds3.
Proof. intros H12 H23 b d H Hn. apply H12; [apply H23|]; assumption. Qed.

Lemma no_timer_started_expire t ds : no_timer_started ds (map (expire t) ds).
Proof.
  intros b d H Hn. rewrite lookup_map in H.
  destruct (ds !! b) as [d0|]; [|discriminate]. injection H as <-.
  unfold expire in *. destruct (due t d0); [|reflexivity]. contradiction.
Qed.

Lemma unmount_unmounted st : consistent st -> unmounted (unmount st).
Proof.
  intros [_ Hinv]. unfold unmount, unmounted.
  destruct (effect st) as [[fn a]|] eqn:He.
  - destruct Hinv as (_ & Hl & _). simpl. rewrite Hl. simpl.
    rewrite Nat.eqb_refl. auto.
  - rewrite He. destruct Hinv. auto.
Qed.

Lemma unmount_frame st : heap (unmount st) = heap st /\ trace (unmount st) = trace st.
Proof. unfold unmount. destruct (effect st) as [[fn a]|]; split; reflexivity. Qed.

Lemma unmounted_step (e : event num) st :
  unmounted st ->
  unmounted (step mul integer_part e st) /\
  renders (trace (step mul integer_part e st)) = renders (trace st) /\
  no_timer_started (heap st) (heap (step mul integer_part e st)).
Proof.
  intros (He & Hc & Hl). destruct e as [w h dp| |fn'|]; simpl.
  - rewrite resize_unfold, Hl. simpl.
    split; [|split; [reflexivity|apply no_timer_started_refl]].
    unfold unmounted; simpl. auto.
  - rewrite tick_detached by assumption. simpl.
    split; [|split; [|apply no_timer_started_expire]].
    + unfold unmounted; simpl. auto.
    + unfold renders. rewrite List.filter_app.
      fold (renders (map (fun _ => (S (now st), Uncaught (num:=num) TypeError))
              (List.filter (due (S (now st))) (heap st)))).
      rewrite uncaught_renders. apply app_nil_r.
  - unfold rerender. rewrite He.
    split; [|split; [reflexivity|apply no_timer_started_refl]].
    unfold unmounted. auto.
  - unfold unmount. rewrite He.
    split; [|split; [reflexivity|apply no_timer_started_refl]].
    unfold unmounted. auto.
Qed.

Lemma unmounted_run (evs : list (event num)) : forall st,
  unmounted st ->
  unmounted (run mul integer_part evs st) /\
  renders (trace (run mul integer_part evs st)) = renders (trace st) /\
  no_timer_started (heap st) (heap (run mul integer_part evs st)).
Proof.
  induction evs as [|e evs IH]; intros st U; simpl.
  - split; [assumption|]. split; [reflexivity|apply no_timer_started_refl].
  - destruct (unmounted_step e st U) as (U1 & R1 & N1).
    destruct (IH _ U1) as (U2 & R2 & N2).
    split; [assumption|]. split; [congruence|].
    eapply no_timer_started_trans; eassumption.
Qed.

(** *** The mounted state *)

Lemma mount_armed fn (el : HTMLCanvasElement num) dp t0 :
  armed 0 fn (t0 + 250) (offsetWidth el) (offsetHeight el) dp (Some Context2D)
        (mount fn el dp t0) /\
  quiet 0 (mount fn el dp t0).
Proof.
  split.
  - unfold armed; simpl. repeat split. lia.
  - intros [|b] d Hb Hne; [congruence|]. simpl in Hb. discriminate.
Qed.

(** ** The claims *)

(** C1, as the code has it. The first call is debounced like every other: on
    attachment the hook, guarded by its one-shot [hasFired] flag, calls the
    debounced handler, which only starts its timer. No render callback runs at
    attachment, and a later render with another callback starts no timer.
    While only time passes, the callback has not run any time before 250
    units have passed, and has run exactly once, at 250 units, with the
    backing store recomputed and the context acquired, from then on. When
    resize events come instead, the first of them less than 250 units after
    attachment and each of the others less than 250 units after the one
    before, every one of them restarts the delay: the callback has not run
    any time before 250 units have passed since the last of them, and has run
    exactly once, 250 units after that last event and with its size and
    density, from then on. *)
Theorem first_render_is_debounced fn (el : HTMLCanvasElement num) dp t0 :
  let st0 := mount fn el dp t0 in
  let first := firing (t0 + 250) 0 fn (recompute mul integer_part el dp)
                      (Some Context2D) in
  trace st0 = [(t0, GetContext)] /\
  hasFired_current st0 = true /\
  heap st0 = [mkDebounced fn 250 (Some (t0 + 250))] /\
  (forall fn',
      heap (step mul integer_part (Rerender fn') st0) =
        if fn =? fn' then heap st0 else heap st0 ++ [debounce fn' 250]) /\
  (forall n, n < 250 ->
      trace (run mul integer_part (ticks n) st0) = [(t0, GetContext)]) /\
  (forall m,
      trace (run mul integer_part (ticks (250 + m)) st0)
      = (t0, GetContext) :: first) /\
  (forall n e more k,
      n < 250 -> Forall (fun g => g.1 < 250) more -> k < 250 ->
      trace (run mul integer_part (ticks n ++ burst e more ++ ticks k) st0)
      = [(t0, GetContext)]) /\
  (forall n e more m,
      n < 250 -> Forall (fun g => g.1 < 250) more ->
      trace (run mul integer_part
                 (ticks n ++ burst e more ++ ticks (250 + m)) st0)
      = (t0, GetContext)
          :: firing (t0 + n + span more + 250) 0 fn
               (mkCanvas (last_resize e more).1.1 (last_resize e more).1.2
                  (stored integer_part 300
                     (mul (last_resize e more).1.1 (last_resize e more).2))
                  (stored integer_part 150
                     (mul (last_resize e more).1.2 (last_resize e more).2)))
               (Some Context2D)).
Proof.
  intros st0 first. destruct (mount_armed fn el dp t0) as [Ha Hq].
  fold st0 in Ha, Hq.
  assert (Burst : forall n e more,
             n < 250 -> Forall (fun g => g.1 < 250) more ->
             let s := run mul integer_part (ticks n ++ burst e more) st0 in
             armed 0 fn (t0 + n + span more + 250)
                   (last_resize e more).1.1 (last_resize e more).1.2
                   (last_resize e more).2 (Some Context2D) s /\
             now s = t0 + n + span more /\
             quiet 0 s /\
             trace s = [(t0, GetContext)]).
  { intros n e more Hn Hgaps s. subst s. rewrite run_app.
    destruct (armed_ticks_wait _ _ _ _ _ _ _ n st0 Ha) as (Ha1 & Hn1 & _ & Hq1);
      [simpl; lia|].
    destruct (Hq1 Hq) as [Q1 T1].
    pose proof (armed_listening _ _ _ _ _ _ _ _ Ha1) as L1.
    destruct (burst_armed 0 fn more e _ L1 Hgaps) as (Ha2 & _ & Hq2).
    pose proof (burst_now 0 fn more e _ L1 Hgaps) as Hn2.
    destruct (Hq2 Q1) as [Q2 T2].
    assert (Hx : ctx_current (run mul integer_part (ticks n) st0)
                 = Some Context2D) by apply Ha1.
    rewrite Hx, Hn1 in Ha2. rewrite Hn1 in Hn2.
    split; [exact Ha2|]. split; [exact Hn2|]. split; [exact Q2|].
    rewrite T2, T1. reflexivity. }
  split; [reflexivity|]. split; [reflexivity|]. split; [reflexivity|].
  split; [|split; [|split; [|split]]].
  - intros fn'. simpl. unfold rerender. simpl. destruct (fn =? fn'); reflexivity.
  - intros n Hn.
    destruct (armed_ticks_wait _ _ _ _ _ _ _ n st0 Ha) as (_ & _ & _ & Hq');
      [simpl; lia|].
    destruct (Hq' Hq) as [_ ->]. reflexivity.
  - intros m. unfold ticks. rewrite replicate_add. fold (ticks (num:=num) 250).
    fold (ticks (num:=num) m). rewrite run_app.
    destruct (armed_quiescence _ _ _ _ _ _ _ st0 Ha) as [_ Hq'].
    destruct (Hq' Hq) as [Ht Hi].
    replace (t0 + 250 - now st0) with 250 in Ht, Hi by (simpl; lia).
    destruct (idle_ticks m _ Hi) as [_ ->]. rewrite Ht. reflexivity.
  - intros n e more k Hn Hgaps Hk.
    destruct (Burst n e more Hn Hgaps) as (Ha2 & Hn2 & Q2 & T2).
    rewrite app_assoc, run_app.
    destruct (armed_ticks_wait _ _ _ _ _ _ _ k _ Ha2) as (_ & _ & _ & Hq3); [lia|].
    destruct (Hq3 Q2) as [_ ->]. exact T2.
  - intros n e more m Hn Hgaps.
    destruct (Burst n e more Hn Hgaps) as (Ha2 & Hn2 & Q2 & T2).
    rewrite app_assoc, run_app, (run_ticks_add 250 m).
    destruct (armed_quiescence _ _ _ _ _ _ _ _ Ha2) as [_ Hq3].
    destruct (Hq3 Q2) as [Ht Hi].
    replace (t0 + n + span more + 250
             - now (run mul integer_part (ticks n ++ burst e more) st0))
      with 250 in Ht, Hi by lia.
    destruct (idle_ticks m _ Hi) as [_ ->]. rewrite Ht, T2. reflexivity.
Qed.

(** X16. Teardown removes the resize subscription for good and touches
    neither the timers nor the trace: from then on the hook never has a
    listener again, a resize event starts no timer and adds nothing to the
    trace, and every timer still pending was pending, unchanged, at
    teardown. *)
Theorem teardown_unsubscribes fn (el : HTMLCanvasElement num) dp t0
        (evs1 evs2 : list (event num)) :
  let st := run mul integer_part evs1 (mount fn el dp t0) in
  let st' := step mul integer_part Unmount st in
  let st'' := run mul integer_part evs2 st' in
  listeners st' = [] /\
  heap st' = heap st /\
  trace st' = trace st /\
  listeners st'' = [] /\
  (forall w h r : num,
      heap (step mul integer_part (Resize w h r) st'') = heap st'' /\
      trace (step mul integer_part (Resize w h r) st'') = trace st'') /\
  no_timer_started (heap st') (heap st'').
Proof.
  intros st st' st''. subst st'' st'.
  change (step mul integer_part Unmount st) with (unmount st).
  assert (C : consistent st) by apply run_consistent, mount_consistent.
  pose proof (unmount_unmounted st C) as U.
  destruct (unmount_frame st) as [Fh Ft].
  destruct (unmounted_run evs2 _ U) as (U2 & R2 & N2).
  split; [apply U|]. split; [exact Fh|]. split; [exact Ft|].
  split; [apply U2|]. split; [|exact N2].
  intros w h r. simpl. rewrite resize_unfold.
  destruct U2 as (_ & _ & ->). split; reflexivity.
Qed.

(** C4, as the code has it. Whenever a timer of the debounced handler fires
    with the canvas attached, the handler assigns to the width of the canvas
    the displayed width times the pixel density and to its height the
    displayed height times the pixel density, the displayed size and the
    density being those read at the firing; what the canvas then holds is
    what its two unsigned long attributes make of these products: their
    integer parts modulo 2^32, or the default (300 for the width, 150 for the
    height) above 2^31 - 1. It is the integer part of the product itself
    when that lies between 0 and 2^31 - 1. *)
Theorem backing_store_matches_display st :
  canvas_current st = true ->
  existsb (due (S (now st))) (heap st) = true ->
  let st' := step mul integer_part Tick st in
  let w := integer_part (mul (offsetWidth (node st')) (devicePixelRatio st')) in
  let h := integer_part (mul (offsetHeight (node st')) (devicePixelRatio st')) in
  width (node st') = unsigned_long 300 w /\
  height (node st') = unsigned_long 150 h /\
  ((0 <= w <= 2147483647)%Z -> width (node st') = w) /\
  ((0 <= h <= 2147483647)%Z -> height (node st') = h) /\
  offsetWidth (node st') = offsetWidth (node st) /\
  offsetHeight (node st') = offsetHeight (node st) /\
  devicePixelRatio st' = devicePixelRatio st.
Proof.
  intros Hc Hdue st'. subst st'. simpl.
  rewrite tick_attached by assumption. simpl. rewrite Hdue. simpl.
  unfold stored.
  split; [reflexivity|]. split; [reflexivity|].
  split; [intros H; apply unsigned_long_small, H|].
  split; [intros H; apply unsigned_long_small, H|].
  repeat split; reflexivity.
Qed.


(** C8. The drawing context is acquired once, by the effect that runs on
    attachment: whatever happens afterwards (resize events, time passing and
    timers firing, renders with another callback, unmounting), the trace
    holds that one acquisition and no other, and the context reference is the
    one acquired then. *)
Theorem context_acquired_once fn (el : HTMLCanvasElement num) dp t0
        (evs : list (event num)) :
  acquisitions (trace (run mul integer_part evs (mount fn el dp t0))) = [(t0, GetContext)] /\
  ctx_current (run mul integer_part evs (mount fn el dp t0)) = Some Context2D /\
  acquisitions (trace (initial el dp t0)) = [].
Proof.
  assert (G : forall st,
             acquisitions (trace (run mul integer_part evs st)) = acquisitions (trace st) /\
             ctx_current (run mul integer_part evs st) = ctx_current st).
  { induction evs as [|e evs IH]; intros st; simpl; [split; reflexivity|].
    destruct (IH (step mul integer_part e st)) as [-> ->]. apply step_acquisitions. }
  destruct (G (mount fn el dp t0)) as [-> ->]. repeat split; reflexivity.
Qed.

(** C10. The handler reads the canvas reference without a guard: when the
    reference is unset its body throws a [TypeError], whatever the callback and
    the closure; a timer that fires then adds an uncaught [TypeError] to the
    trace and nothing else; and a unit of time at whose end timers are due
    reports one such error for each of them and leaves the canvas as it
    was. *)
Theorem handler_throws_on_unset_canvas st :
  canvas_current st = false ->
  (forall fn who, handleCanvas_body mul integer_part fn who st = Throw TypeError) /\
  (forall who d, later mul integer_part who d st = observe (Uncaught TypeError) st) /\
  trace (step mul integer_part Tick st) =
    trace st ++ map (fun _ => (S (now st), Uncaught TypeError))
                    (List.filter (due (S (now st))) (heap st)) /\
  node (step mul integer_part Tick st) = node st.
Proof.
  intros Hc. split; [|split; [|split]].
  - intros fn who. unfold handleCanvas_body. rewrite Hc. reflexivity.
  - intros who d. apply later_detached, Hc.
  - simpl. rewrite tick_detached by assumption. reflexivity.
  - simpl. rewrite tick_detached by assumption. reflexivity.
Qed.

(** ** More about the hook *)

(** *** What every state keeps *)

Lemma effect_resize_hasFired fn st : hasFired_current (effect_resize fn st) = true.
Proof.
  unfold effect_resize. destruct (hasFired_current st) eqn:E; simpl; rewrite E.
  - exact E.
  - reflexivity.
Qed.

Lemma step_hasFired (e : event num) st :
  hasFired_current st = true -> hasFired_current (step mul integer_part e st) = true.
Proof.
  intros H. destruct e as [w h dp| |fn'|]; simpl.
  - rewrite resize_unfold. exact H.
  - destruct (tick_frame st) as (_ & _ & _ & _ & _ & -> & _). exact H.
  - unfold rerender. destruct (effect st) as [[fn a]|]; [|exact H].
    destruct (fn =? fn'); [exact H|apply effect_resize_hasFired].
  - unfold unmount. destruct (effect st) as [[fn a]|]; exact H.
Qed.

Lemma run_hasFired (evs : list (event num)) : forall st,
  hasFired_current st = true -> hasFired_current (run mul integer_part evs st) = true.
Proof.
  induction evs as [|e evs IH]; intros st H; simpl; [exact H|].
  apply IH, step_hasFired, H.
Qed.

Lemma gain_rendered_with t ds (c : HTMLCanvasElement num) ctx : forall who,
  Forall (rendered_with ctx) (gain t who ds c ctx).
Proof.
  induction ds as [|d ds IH]; intros who; cbn [gain]; [constructor|].
  apply Forall_app. split; [|apply IH].
  destruct (due t d); [|constructor].
  unfold firing. repeat constructor.
Qed.

Lemma uncaught_rendered_with (t : nat) ctx ds :
  Forall (rendered_with ctx)
         (map (fun _ => (t, Uncaught (num:=num) TypeError)) ds).
Proof. induction ds; simpl; repeat constructor; assumption. Qed.

Lemma step_rendered_with (e : event num) ctx st :
  ctx_current st = ctx ->
  Forall (rendered_with ctx) (trace st) ->
  Forall (rendered_with ctx) (trace (step mul integer_part e st)).
Proof.
  intros Hx H. destruct e as [w h dp| |fn'|]; simpl.
  - rewrite resize_unfold. exact H.
  - destruct (canvas_current st) eqn:Hc.
    + rewrite tick_attached by assumption. simpl.
      apply Forall_app. split; [exact H|]. rewrite Hx. apply gain_rendered_with.
    + rewrite tick_detached by assumption. simpl.
      apply Forall_app. split; [exact H|]. apply uncaught_rendered_with.
  - unfold rerender. destruct (effect st) as [[fn a]|]; [|exact H].
    destruct (fn =? fn'); [exact H|]. rewrite effect_resize_trace. exact H.
  - destruct (unmount_frame st) as [_ ->]. exact H.
Qed.

(** X7. The hook never leaks a listener: in every state it goes through,
    whatever the resize events, the time passing, the renders with other
    callbacks and the unmounting, the window has exactly one resize listener
    of the hook while it is mounted, the closure that captured the callback
    of the last effect run, and none once it is unmounted. *)
Theorem one_listener_at_most fn (el : HTMLCanvasElement num) dp t0
        (evs : list (event num)) :
  let st := run mul integer_part evs (mount fn el dp t0) in
  listeners st =
    match effect st with
    | Some (_, a) => [a]
    | None => []
    end /\
  match effect st with
  | Some (f, a) => func <$> heap st !! a = Some f
  | None => canvas_current st = false
  end.
Proof.
  intros st.
  assert (C : consistent st) by apply run_consistent, mount_consistent.
  destruct C as [_ Hinv]. destruct (effect st) as [[f a]|].
  - destruct Hinv as (_ & Hl & d & Hd & Hf & _). rewrite Hd. simpl.
    split; [exact Hl|congruence].
  - destruct Hinv as [Hc Hl]. split; assumption.
Qed.

(** X8. When a render of a mounted hook brings another callback, the effect
    runs again: one new closure is created for the new callback and becomes
    the only listener, no timer is started for it (the first call was made
    at mounting), the closures that exist keep their timers, and nothing is
    rendered by the change itself. A render with the same callback changes
    nothing at all. *)
Theorem rerender_replaces_listener fn (el : HTMLCanvasElement num) dp t0
        (evs : list (event num)) f a fn' :
  effect (run mul integer_part evs (mount fn el dp t0)) = Some (f, a) ->
  f <> fn' ->
  let st := run mul integer_part evs (mount fn el dp t0) in
  let st' := step mul integer_part (Rerender fn') st in
  heap st' = heap st ++ [debounce fn' 250] /\
  listeners st' = [length (heap st)] /\
  effect st' = Some (fn', length (heap st)) /\
  trace st' = trace st /\
  node st' = node st /\
  step mul integer_part (Rerender f) st = st.
Proof.
  intros He Hne st st'. subst st'. fold st in He.
  assert (C : consistent st) by apply run_consistent, mount_consistent.
  assert (F : hasFired_current st = true) by (apply run_hasFired; reflexivity).
  destruct C as [_ Hinv]. rewrite He in Hinv. destruct Hinv as (_ & Hl & _).
  simpl. unfold rerender. rewrite He, Nat.eqb_refl.
  assert (E : (f =? fn') = false) by (apply Nat.eqb_neq; exact Hne).
  rewrite E. unfold effect_resize, cleanup_resize. simpl. rewrite F, Hl. simpl.
  rewrite Nat.eqb_refl. simpl. repeat split; reflexivity.
Qed.

(** X9. The render callback is never called with a null context: in every
    trace of the hook, each render passed the context that was acquired at
    mounting. *)
Theorem render_gets_context fn (el : HTMLCanvasElement num) dp t0
        (evs : list (event num)) :
  Forall (rendered_with (Some Context2D))
         (trace (run mul integer_part evs (mount fn el dp t0))).
Proof.
  assert (G : forall st,
             ctx_current st = Some Context2D ->
             Forall (rendered_with (Some Context2D)) (trace st) ->
             Forall (rendered_with (Some Context2D)) (trace (run mul integer_part evs st))).
  { induction evs as [|e evs IH]; intros st Hx H; simpl; [exact H|].
    apply IH.
    - destruct (step_acquisitions e st) as [_ ->]. exact Hx.
    - apply step_rendered_with; assumption. }
  apply G; [reflexivity|]. simpl. repeat constructor.
Qed.

(** *** Nothing is rendered early *)

Lemma timers_from_expire lo t ds :
  timers_from lo ds -> timers_from lo (map (expire t) ds).
Proof.
  intros H b d Hb. rewrite lookup_map in Hb.
  destruct (ds !! b) as [d0|] eqn:E; [|discriminate]. injection Hb as <-.
  destruct (H b d0 E) as [Hw HT]. rewrite expire_wait. split; [exact Hw|].
  unfold expire. destruct (due t d0); [discriminate|exact HT].
Qed.

Lemma timers_from_restart lo t a ds :
  timers_from lo ds -> lo <= t + 250 ->
  timers_from lo (alter (restart t) a ds).
Proof.
  intros H Hlo b d Hb. destruct (Nat.eq_dec a b) as [->|Hne].
  - rewrite list_lookup_alter_eq in Hb.
    destruct (ds !! b) as [d0|] eqn:E; [|discriminate]. injection Hb as <-.
    destruct (H b d0 E) as [Hw _]. simpl. split; [exact Hw|].
    intros T [= <-]. rewrite Hw. exact Hlo.
  - rewrite list_lookup_alter_ne in Hb by exact Hne. apply (H b d Hb).
Qed.

Lemma timers_from_calls lo t (ls : list nat) : forall ds,
  timers_from lo ds -> lo <= t + 250 ->
  timers_from lo (foldl (fun hp a => alter (restart t) a hp) ds ls).
Proof.
  induction ls as [|a ls IH]; intros ds H Hlo; simpl; [exact H|].
  apply IH; [apply timers_from_restart|]; assumption.
Qed.

Lemma timers_from_snoc lo ds d :
  timers_from lo ds -> wait d = 250 ->
  (forall T, timeout d = Some T -> lo <= T) ->
  timers_from lo (ds ++ [d]).
Proof.
  intros H Hw HT b d' Hb. apply lookup_snoc_Some in Hb as [[_ Hb]|[_ <-]].
  - apply (H b d' Hb).
  - split; assumption.
Qed.

Lemma gain_not_before lo t ds (c : HTMLCanvasElement num) ctx : forall who,
  timers_from lo ds -> Forall (not_before lo) (gain t who ds c ctx).
Proof.
  induction ds as [|d ds IH]; intros who H; cbn [gain]; [constructor|].
  apply Forall_app. split.
  - destruct (due t d) eqn:Hd; [|constructor].
    assert (Hlo : lo <= t).
    { destruct (H 0 d eq_refl) as [_ HT]. unfold due in Hd.
      destruct (timeout d) as [T|]; [|discriminate].
      apply Nat.eqb_eq in Hd. subst T. apply HT. reflexivity. }
    unfold firing. repeat constructor; exact Hlo.
  - apply IH. intros b d' Hb. apply (H (S b) d' Hb).
Qed.

Lemma uncaught_not_before lo (t : nat) ds :
  Forall (not_before lo) (map (fun _ => (t, Uncaught (num:=num) TypeError)) ds).
Proof. induction ds; simpl; repeat constructor; assumption. Qed.

Lemma effect_resize_heap fn st :
  heap (effect_resize fn st) =
    if hasFired_current st then heap st ++ [debounce fn 250]
    else alter (restart (now st)) (length (heap st)) (heap st ++ [debounce fn 250]).
Proof.
  unfold effect_resize. destruct (hasFired_current st) eqn:E; simpl; rewrite E;
    reflexivity.
Qed.

Lemma effect_resize_now fn st : now (effect_resize fn st) = now st.
Proof.
  unfold effect_resize. destruct (hasFired_current st) eqn:E; simpl; rewrite E;
    reflexivity.
Qed.

Lemma step_not_before lo (e : event num) st :
  lo <= now st + 250 ->
  timers_from lo (heap st) ->
  Forall (not_before lo) (trace st) ->
  lo <= now (step mul integer_part e st) + 250 /\
  timers_from lo (heap (step mul integer_part e st)) /\
  Forall (not_before lo) (trace (step mul integer_part e st)).
Proof.
  intros Hlo Ht Hf. destruct e as [w h dp| |fn'|]; simpl.
  - rewrite resize_unfold. simpl.
    split; [exact Hlo|]. split; [|exact Hf]. apply timers_from_calls; assumption.
  - destruct (tick_frame st) as (-> & -> & _).
    split; [lia|]. split; [apply timers_from_expire, Ht|].
    destruct (canvas_current st) eqn:Hc.
    + rewrite tick_attached by assumption. simpl.
      apply Forall_app. split; [exact Hf|]. apply gain_not_before, Ht.
    + rewrite tick_detached by assumption. simpl.
      apply Forall_app. split; [exact Hf|]. apply uncaught_not_before.
  - unfold rerender. destruct (effect st) as [[fn a]|]; [|auto].
    destruct (fn =? fn'); [auto|].
    rewrite effect_resize_now, effect_resize_trace, effect_resize_heap.
    split; [exact Hlo|]. split; [|exact Hf]. simpl.
    assert (S : timers_from lo (heap st ++ [debounce fn' 250])).
    { apply timers_from_snoc; [exact Ht|reflexivity|discriminate]. }
    destruct (hasFired_current st); [exact S|].
    apply timers_from_restart; assumption.
  - destruct (unmount_frame st) as [-> ->].
    split; [|split; assumption].
    unfold unmount. destruct (effect st) as [[fn a]|]; exact Hlo.
Qed.

(** X11. Nothing is rendered during the first 250 units of time after
    mounting, whatever happens meanwhile: in every trace of the hook, each
    recomputation of the backing store and each call of the render callback
    is made 250 units after mounting or later. *)
Theorem no_render_before_first_delay fn (el : HTMLCanvasElement num) dp t0
        (evs : list (event num)) :
  Forall (not_before (t0 + 250)) (trace (run mul integer_part evs (mount fn el dp t0))).
Proof.
  assert (G : forall st,
             t0 + 250 <= now st + 250 ->
             timers_from (t0 + 250) (heap st) ->
             Forall (not_before (t0 + 250)) (trace st) ->
             Forall (not_before (t0 + 250)) (trace (run mul integer_part evs st))).
  { induction evs as [|e evs IH]; intros st Hlo Ht Hf; simpl; [exact Hf|].
    destruct (step_not_before (t0 + 250) e st Hlo Ht Hf) as (H1 & H2 & H3).
    apply IH; assumption. }
  apply G.
  - simpl. lia.
  - intros [|b] d Hb; simpl in Hb; [|discriminate]. injection Hb as <-.
    simpl. split; [reflexivity|]. intros T [= <-]. lia.
  - simpl. repeat constructor.
Qed.

(** *** Once resizing has settled *)

(** X12. Once resizing has settled the canvas is sharp: after a burst of
    resize events received by a mounted hook and 250 units of time without
    any, the canvas is displayed at the size of the last event and its
    backing store is what its unsigned long attributes hold of that size
    times the pixel density of the last event (the integer part modulo 2^32,
    or the default above 2^31 - 1). *)
Theorem backing_store_settles fn (el : HTMLCanvasElement num) dp0 t0
        (evs : list (event num)) f a first more :
  effect (run mul integer_part evs (mount fn el dp0 t0)) = Some (f, a) ->
  Forall (fun g => g.1 < 250) more ->
  let st := run mul integer_part evs (mount fn el dp0 t0) in
  let st' := run mul integer_part (burst first more ++ ticks 250) st in
  let e := last_resize first more in
  node st' = mkCanvas e.1.1 e.1.2
        (stored integer_part 300 (mul e.1.1 e.2))
        (stored integer_part 150 (mul e.1.2 e.2)) /\
  devicePixelRatio st' = e.2.
Proof.
  intros He Hgaps st st' e.
  assert (C : consistent st) by apply run_consistent, mount_consistent.
  destruct C as [Hx L]. fold st in He. rewrite He in L.
  destruct (burst_armed a f more first st L Hgaps) as (Ha & _).
  pose proof (burst_now a f more first st L Hgaps) as Hn.
  fold e in Ha. subst st'. rewrite run_app.
  rewrite (run_ticks_snoc 249).
  destruct (armed_ticks_wait _ _ _ _ _ _ _ 249 _ Ha) as (Ha' & Hn' & _); [lia|].
  apply (armed_tick_fire_node _ _ _ _ _ _ _ _ Ha'). lia.
Qed.

(** X13. Resizing without a pause postpones the render for as long as it
    lasts: during a burst of resize events, each less than 250 units after the
    one before, the listening handler never runs, however long the burst; at
    its end the timer is pending for 250 units after the last event. *)
Theorem burst_postpones_render fn (el : HTMLCanvasElement num) dp0 t0
        (evs : list (event num)) f a first more :
  effect (run mul integer_part evs (mount fn el dp0 t0)) = Some (f, a) ->
  Forall (fun g => g.1 < 250) more ->
  let st := run mul integer_part evs (mount fn el dp0 t0) in
  let st' := run mul integer_part (burst first more) st in
  by_handler a (trace st') = by_handler a (trace st) /\
  now st' = now st + span more /\
  heap st' !! a = Some (mkDebounced f 250 (Some (now st' + 250))).
Proof.
  intros He Hgaps st st'.
  assert (C : consistent st) by apply run_consistent, mount_consistent.
  destruct C as [Hx L]. fold st in He. rewrite He in L.
  destruct (burst_armed a f more first st L Hgaps) as (Ha & Hb & _).
  pose proof (burst_now a f more first st L Hgaps) as Hn.
  subst st'. split; [exact Hb|]. split; [exact Hn|].
  rewrite Hn. apply Ha.
Qed.

(** *** A closure that no longer listens *)

Lemma run_ticks_frame n : forall st,
  now (run mul integer_part (ticks n) st) = now st + n /\
  effect (run mul integer_part (ticks n) st) = effect st.
Proof.
  induction n as [|n IH]; intros st; [simpl; split; [lia|reflexivity]|].
  rewrite run_ticks_S. destruct (IH (tick mul integer_part st)) as [-> ->].
  destruct (tick_frame st) as (-> & _ & _ & -> & _). split; [lia|reflexivity].
Qed.

Lemma armed_pending a fn T w h dp ctx st :
  armed a fn T w h dp ctx st -> pending a fn T w h dp ctx st.
Proof. intros (Hc & _ & H). split; assumption. Qed.

(** One unit of time passes, the only pending timer being that of [a], not
    due yet. *)
Lemma pending_tick_wait a fn T w h dp ctx st :
  pending a fn T w h dp ctx st ->
  quiet a st ->
  S (now st) < T ->
  pending a fn T w h dp ctx (tick mul integer_part st) /\
  quiet a (tick mul integer_part st) /\
  trace (tick mul integer_part st) = trace st.
Proof.
  intros (Hc & Hd & Hw & Hh & Hp & Hx & Hn) Hq Hlt.
  assert (Hnd : due (S (now st)) (mkDebounced fn 250 (Some T)) = false).
  { unfold due. simpl. apply Nat.eqb_neq. lia. }
  destruct (tick_frame st) as (Fn & Fh & Fl & Fe & Fx & Ff & Fp & Fw & Fhh).
  split; [|split].
  - unfold pending. rewrite tick_canvas_current, Fh, Fw, Fhh, Fp, Fx, Fn.
    assert (Hd' : map (expire (S (now st))) (heap st) !! a
                  = Some (mkDebounced fn 250 (Some T))).
    { rewrite lookup_map, Hd. simpl. rewrite expire_not_due by assumption.
      reflexivity. }
    repeat split; try assumption; lia.
  - intros b d Hb Hne. rewrite Fh in Hb.
    apply (quiet_expire a (S (now st)) st Hq b d); assumption.
  - rewrite tick_attached by assumption. simpl.
    rewrite (gain_quiet a) by (intros k d Hk Hne; apply (Hq k d); assumption).
    rewrite Nat.sub_0_r, Hd, Hnd, andb_false_r. apply app_nil_r.
Qed.

Lemma pending_ticks_wait a fn T w h dp ctx n : forall st,
  pending a fn T w h dp ctx st ->
  quiet a st ->
  now st + n < T ->
  pending a fn T w h dp ctx (run mul integer_part (ticks n) st) /\
  quiet a (run mul integer_part (ticks n) st) /\
  trace (run mul integer_part (ticks n) st) = trace st.
Proof.
  induction n as [|n IH]; intros st Hp Hq Hlt.
  - simpl. split; [assumption|]. split; [assumption|reflexivity].
  - rewrite run_ticks_S.
    destruct (pending_tick_wait _ _ _ _ _ _ _ _ Hp Hq) as (Hp' & Hq' & Ht'); [lia|].
    assert (Hn' : now (tick mul integer_part st) = S (now st)) by apply tick_frame.
    destruct (IH _ Hp' Hq') as (Hp2 & Hq2 & Ht2); [lia|].
    split; [exact Hp2|]. split; [exact Hq2|congruence].
Qed.

Lemma pending_tick_fire a fn T w h dp ctx st :
  pending a fn T w h dp ctx st ->
  quiet a st ->
  S (now st) = T ->
  trace (tick mul integer_part st) =
    trace st ++ firing T a fn (mkCanvas w h
          (stored integer_part 300 (mul w dp))
          (stored integer_part 150 (mul h dp))) ctx /\
  idle (tick mul integer_part st).
Proof.
  intros (Hc & Hd & Hw & Hh & Hp & Hx & Hn) Hq HT.
  assert (Hdue : due (S (now st)) (mkDebounced fn 250 (Some T)) = true).
  { unfold due. simpl. apply Nat.eqb_eq. lia. }
  assert (Hrec : recompute mul integer_part (node st) (devicePixelRatio st)
                 = mkCanvas w h
                       (stored integer_part 300 (mul w dp))
                       (stored integer_part 150 (mul h dp))).
  { unfold recompute. simpl. rewrite Hw, Hh, Hp. reflexivity. }
  split.
  - rewrite tick_attached by assumption. simpl.
    rewrite (gain_quiet a) by (intros k d Hk Hne; apply (Hq k d); assumption).
    rewrite Nat.sub_0_r, Hd, Hdue, Hrec, Hx, HT. reflexivity.
  - destruct (tick_frame st) as (_ & Fh & _).
    intros b d Hb. rewrite Fh, lookup_map in Hb.
    destruct (heap st !! b) as [d0|] eqn:E; [|discriminate].
    injection Hb as <-.
    destruct (Nat.eq_dec b a) as [->|Hne].
    + rewrite Hd in E. injection E as <-. unfold expire. rewrite Hdue. reflexivity.
    + rewrite expire_idle; eauto.
Qed.

(** X14. A callback that was replaced while its timer was pending is still
    the one called: when a render brings another callback less than 250
    units after mounting and no resize event follows, the first render, 250
    units after mounting, calls the callback given at mounting, and the new
    callback is never called. *)
Theorem replaced_callback_still_called fn fn' (el : HTMLCanvasElement num) dp t0 n m :
  n < 250 ->
  fn <> fn' ->
  trace (run mul integer_part (ticks n ++ [Rerender fn'] ++ ticks (250 - n + m))
             (mount fn el dp t0))
  = (t0, GetContext)
      :: firing (t0 + 250) 0 fn (recompute mul integer_part el dp) (Some Context2D).
Proof.
  intros Hn Hne. destruct (mount_armed fn el dp t0) as [Ha Hq].
  set (st0 := mount fn el dp t0) in *.
  destruct (armed_ticks_wait _ _ _ _ _ _ _ n st0 Ha) as (Ha1 & Hn1 & _ & Hq1);
    [simpl; lia|].
  destruct (Hq1 Hq) as [Q1 T1].
  destruct (run_ticks_frame n st0) as [_ He1].
  assert (F1 : hasFired_current (run mul integer_part (ticks n) st0) = true)
    by (apply run_hasFired; reflexivity).
  rewrite run_app. set (st1 := run mul integer_part (ticks n) st0) in *.
  rewrite run_app. cbn [run step].
  assert (E : (fn =? fn') = false) by (apply Nat.eqb_neq; exact Hne).
  assert (R : rerender fn' st1 =
              mkState (now st1) (devicePixelRatio st1) (node st1)
                      (canvas_current st1) (ctx_current st1) true
                      (heap st1 ++ [debounce fn' 250]) [length (heap st1)]
                      (Some (fn', length (heap st1))) (trace st1)).
  { unfold rerender. rewrite He1. simpl. rewrite E.
    destruct Ha1 as (_ & Hl & _).
    unfold effect_resize, cleanup_resize. simpl. rewrite F1, Hl. simpl.
    unfold set_effect, set_listeners, set_heap. simpl. rewrite F1.
    reflexivity. }
  rewrite R. clear R.
  match goal with |- trace (run mul integer_part _ ?s) = _ => set (st2 := s) end.
  assert (P2 : pending 0 fn (t0 + 250) (offsetWidth el) (offsetHeight el) dp
                       (Some Context2D) st2).
  { destruct Ha1 as (Hc & _ & Hd & Hw & Hh & Hp & Hx & Hlt).
    unfold pending; simpl. rewrite lookup_app_l by (eapply lookup_lt_Some, Hd).
    repeat split; assumption. }
  assert (Q2 : quiet 0 st2).
  { intros b d Hb Hb0. simpl in Hb.
    apply lookup_snoc_Some in Hb as [[_ Hb]|[_ <-]]; [|reflexivity].
    apply (Q1 b d Hb Hb0). }
  assert (N2 : now st2 = t0 + n) by (simpl; rewrite Hn1; reflexivity).
  replace (250 - n + m) with ((249 - n) + (1 + m)) by lia.
  unfold ticks. rewrite replicate_add. fold (ticks (num:=num) (249 - n)).
  rewrite run_app, replicate_add. fold (ticks (num:=num) m). rewrite run_app.
  destruct (pending_ticks_wait _ _ _ _ _ _ _ (249 - n) st2 P2 Q2)
    as (P3 & Q3 & T3); [lia|].
  destruct (run_ticks_frame (249 - n) st2) as [N3 _].
  set (st3 := run mul integer_part (ticks (249 - n)) st2) in *.
  cbn [replicate run step].
  destruct (pending_tick_fire _ _ _ _ _ _ _ _ P3 Q3) as [T4 I4]; [lia|].
  destruct (idle_ticks m _ I4) as [_ ->].
  rewrite T4, T3. simpl. rewrite T1. reflexivity.
Qed.

(** *** Resize events far apart *)

Lemma run_cons (e : event num) evs st :
  run mul integer_part (e :: evs) st = run mul integer_part evs (step mul integer_part e st).
Proof. reflexivity. Qed.

Lemma step_Resize (w h r : num) st : step mul integer_part (Resize w h r) st = resize w h r st.
Proof. reflexivity. Qed.

Lemma tick_consistent st : consistent st -> consistent (tick mul integer_part st).
Proof. exact (step_consistent Tick st). Qed.

Lemma resize_consistent (w h r : num) st :
  consistent st -> consistent (resize w h r st).
Proof. exact (step_consistent (Resize w h r) st). Qed.

Lemma ticks_consistent n st :
  consistent st -> consistent (run mul integer_part (ticks n) st).
Proof. apply run_consistent. Qed.

Lemma armed_tick_fire_disarmed a fn T w h dp ctx st :
  armed a fn T w h dp ctx st ->
  S (now st) = T ->
  disarmed a (tick mul integer_part st).
Proof.
  intros (Hc & Hl & Hd & _) HT.
  assert (Hdue : due (S (now st)) (mkDebounced fn 250 (Some T)) = true).
  { unfold due. simpl. apply Nat.eqb_eq. lia. }
  destruct (tick_frame st) as (_ & Fh & _).
  split; [rewrite tick_canvas_current; exact Hc|].
  exists (mkDebounced fn 250 None). rewrite Fh, lookup_map, Hd. simpl.
  unfold expire. rewrite Hdue. split; reflexivity.
Qed.

Lemma disarmed_tick a st :
  disarmed a st ->
  disarmed a (tick mul integer_part st) /\
  by_handler a (trace (tick mul integer_part st)) = by_handler a (trace st).
Proof.
  intros (Hc & d & Hd & Hn).
  assert (Hnd : due (S (now st)) d = false).
  { unfold due. rewrite Hn. reflexivity. }
  destruct (tick_frame st) as (_ & Fh & _).
  split.
  - split; [rewrite tick_canvas_current; exact Hc|].
    exists d. rewrite Fh, lookup_map, Hd. simpl.
    rewrite expire_not_due by exact Hnd. split; [reflexivity|exact Hn].
  - rewrite tick_attached by assumption. simpl.
    unfold by_handler. rewrite List.filter_app.
    fold (by_handler a (gain (S (now st)) 0 (heap st)
            (recompute mul integer_part (node st) (devicePixelRatio st)) (ctx_current st))).
    rewrite gain_by_handler, Nat.sub_0_r, Hd, Hnd, andb_false_r. apply app_nil_r.
Qed.

Lemma disarmed_ticks a n : forall st,
  disarmed a st ->
  by_handler a (trace (run mul integer_part (ticks n) st)) = by_handler a (trace st).
Proof.
  induction n as [|n IH]; intros st D; [reflexivity|].
  rewrite run_ticks_S. destruct (disarmed_tick a st D) as [D' H].
  rewrite (IH _ D'). exact H.
Qed.

(** X15. Resize events far apart are each followed by a render: when a
    mounted hook receives a resize event and, 250 units of time or more
    later, another one, its handler runs once 250 units after the first, with
    the size and density of the first, and once 250 units after the second,
    with those of the second, and not otherwise. *)
Theorem spaced_resizes_render_each fn (el : HTMLCanvasElement num) dp0 t0
        (evs : list (event num)) f a (w1 h1 r1 w2 h2 r2 : num) g :
  effect (run mul integer_part evs (mount fn el dp0 t0)) = Some (f, a) ->
  250 <= g ->
  let st := run mul integer_part evs (mount fn el dp0 t0) in
  let st' :=
    run mul integer_part
        (Resize w1 h1 r1 :: ticks g ++ Resize w2 h2 r2 :: ticks 250) st in
  by_handler a (trace st') =
    by_handler a (trace st)
    ++ firing (now st + 250) a f
              (mkCanvas w1 h1
                    (stored integer_part 300 (mul w1 r1))
                    (stored integer_part 150 (mul h1 r1))) (Some Context2D)
    ++ firing (now st + g + 250) a f
              (mkCanvas w2 h2
                    (stored integer_part 300 (mul w2 r2))
                    (stored integer_part 150 (mul h2 r2))) (Some Context2D).
Proof.
  intros He Hg st st'. fold st in He.
  assert (C : consistent st) by apply run_consistent, mount_consistent.
  pose proof C as [Hx L]. rewrite He in L.
  destruct (listening_resize_armed a f w1 h1 r1 st L) as (A1 & N1 & T1 & _).
  rewrite Hx in A1.
  subst st'. rewrite run_cons, step_Resize.
  set (s1 := resize w1 h1 r1 st) in *.
  assert (C1 : consistent s1) by apply (resize_consistent w1 h1 r1 st C).
  assert (E1 : effect s1 = Some (f, a)).
  { subst s1. rewrite resize_unfold. exact He. }
  rewrite run_app.
  pose proof (run_ticks_add 249 (S (g - 250)) s1) as S1.
  replace (249 + S (g - 250)) with g in S1 by lia.
  rewrite S1, (run_ticks_S (g - 250)). clear S1.
  destruct (armed_ticks_wait _ _ _ _ _ _ _ 249 s1 A1) as (A2 & N2 & B2 & _); [lia|].
  set (s2 := run mul integer_part (ticks 249) s1) in *.
  destruct (armed_tick_fire _ _ _ _ _ _ _ _ A2) as [B3 _]; [lia|].
  pose proof (armed_tick_fire_disarmed _ _ _ _ _ _ _ _ A2) as D3.
  assert (D3' : disarmed a (tick mul integer_part s2)) by (apply D3; lia). clear D3.
  pose proof (disarmed_ticks a (g - 250) _ D3') as B4.
  set (s4 := run mul integer_part (ticks (g - 250)) (tick mul integer_part s2)) in *.
  assert (C4 : consistent s4).
  { subst s4 s2. apply ticks_consistent, tick_consistent, ticks_consistent.
    exact C1. }
  destruct (run_ticks_frame 249 s1) as [_ E2]. fold s2 in E2.
  destruct (tick_frame s2) as (N3 & _ & _ & E3 & _).
  destruct (run_ticks_frame (g - 250) (tick mul integer_part s2)) as [N4 E4].
  fold s4 in N4, E4.
  assert (N4' : now s4 = now st + g) by lia.
  assert (E4' : effect s4 = Some (f, a)) by congruence.
  clear N4 E4. rename N4' into N4. rename E4' into E4.
  pose proof C4 as [Hx4 L4]. rewrite E4 in L4.
  destruct (listening_resize_armed a f w2 h2 r2 s4 L4) as (A5 & N5 & T5 & _).
  rewrite Hx4 in A5.
  destruct (armed_quiescence _ _ _ _ _ _ _ _ A5) as [B6 _].
  replace (now s4 + 250 - now (resize w2 h2 r2 s4)) with 250 in B6 by lia.
  rewrite run_cons, step_Resize.
  rewrite B6, T5, B4, B3, B2, T1, N4, <- app_assoc. reflexivity.
Qed.

End spec.

(** ** The claims on a concrete host *)

(** C1, as stated, fails: when mounting is over the render callback has not
    run, and a resize event 100 units later postpones it further, so that 349
    units after attachment it has still not run, although a resize event has
    occurred. *)
Lemma first_render_not_immediate :
  ~ fires_on_attach 1 Host.canvas0 2%Z 0 /\
  renders (trace Host.mounted) = [] /\
  renders (trace (run Z.mul Host.integer_part (ticks 100 ++ [Resize 10 20 3] ++ ticks 249)%Z
                      Host.mounted)) = [].
Proof.
  split; [|split].
  - intros [o H]. vm_compute in H. discriminate H.
  - reflexivity.
  - vm_compute. reflexivity.
Qed.

(** C2. The code misses what the claim says: unmounted 100 units after it
    was mounted, the hook has removed its listener and left the timer started
    at mounting pending; the handler runs when that timer fires, 150 units
    later, on a canvas reference that is unset, and ends in an uncaught
    [TypeError]. *)
Lemma teardown_leaves_timer_pending :
  ~ teardown_cancels_pending (run Z.mul Host.integer_part (ticks 100) Host.mounted) /\
  heap (run Z.mul Host.integer_part (ticks 100 ++ [Unmount]) Host.mounted)
    = [mkDebounced 1 250 (Some 250)] /\
  trace (run Z.mul Host.integer_part (ticks 100 ++ [Unmount] ++ ticks 150) Host.mounted)
    = [(0, GetContext); (250, Uncaught TypeError)].
Proof.
  split; [|split].
  - intros H. specialize (H (mkDebounced 1 250 (Some 250))).
    assert (I : In (mkDebounced 1 250 (Some 250))
                   (heap (unmount (run Z.mul Host.integer_part (ticks 100) Host.mounted)))).
    { vm_compute. left. reflexivity. }
    specialize (H I). discriminate H.
  - vm_compute. reflexivity.
  - vm_compute. reflexivity.
Qed.

(** C4, as stated, fails: on a canvas displayed at 101 by 50 at density 3/2
    the timer started at mounting fires at time 250 and leaves a backing
    store of 151 by 75, while 101 times 3/2 is 303/2. *)
Lemma backing_store_not_exact :
  ~ HostQ.exactly_the_product HostQ.about_to_fire /\
  width (node (step QArith_base.Qmult HostQ.integer_part Tick
                    HostQ.about_to_fire)) = 151%Z /\
  height (node (step QArith_base.Qmult HostQ.integer_part Tick
                     HostQ.about_to_fire)) = 75%Z.
Proof.
  split; [|split].
  - intros [W _]. vm_compute in W. discriminate W.
  - vm_compute. reflexivity.
  - vm_compute. reflexivity.
Qed.

(** C4, on integers: the timer started at mounting fires at time 250 on a
    300 by 150 canvas at density 2. *)
Lemma backing_store_matches_display_witness :
  width (node (step Z.mul Host.integer_part Tick Host.about_to_fire)) = 600%Z /\
  height (node (step Z.mul Host.integer_part Tick Host.about_to_fire)) = 300%Z.
Proof.
  destruct (backing_store_matches_display Z.mul Host.integer_part Host.about_to_fire)
    as (W & H & _).
  - vm_compute. reflexivity.
  - vm_compute. reflexivity.
  - split.
    + rewrite W. vm_compute. reflexivity.
    + rewrite H. vm_compute. reflexivity.
Defined.



(** C10, on integers: the hook is unmounted at time 100 and the timer started
    at mounting fires at 250. *)
Lemma handler_throws_on_unset_canvas_witness :
  handleCanvas_body Z.mul Host.integer_part 1 0 Host.torn_down = Throw TypeError /\
  trace (step Z.mul Host.integer_part Tick Host.torn_down)
    = [(0, GetContext); (250, Uncaught TypeError)].
Proof.
  destruct (handler_throws_on_unset_canvas Z.mul Host.integer_part Host.torn_down)
    as (B & _ & T & _).
  - vm_compute. reflexivity.
  - split.
    + apply B.
    + rewrite T. vm_compute. reflexivity.
Defined.

(** X8, on integers: the callback changes from [1] to [2] at time 100. *)
Lemma rerender_replaces_listener_witness :
  listeners (step Z.mul Host.integer_part (Rerender 2)
     (run Z.mul Host.integer_part (ticks 100) Host.mounted))
    = [1] /\
  heap (step Z.mul Host.integer_part (Rerender 2)
     (run Z.mul Host.integer_part (ticks 100) Host.mounted))
    = [mkDebounced 1 250 (Some 250); mkDebounced 2 250 None].
Proof.
  destruct (rerender_replaces_listener Z.mul Host.integer_part 1
      Host.canvas0 2%Z 0 (ticks 100) 1 0 2)
    as (H & L & _).
  - vm_compute. reflexivity.
  - lia.
  - split.
    + etransitivity; [exact L|]. vm_compute. reflexivity.
    + etransitivity; [exact H|]. vm_compute. reflexivity.
Defined.

(** X12, on integers: two resize events 50 units apart, the second to 11 by
    21 at density 3. *)
Lemma backing_store_settles_witness :
  node (run Z.mul Host.integer_part (burst (10, 20, 3)%Z [(50, (11, 21, 3)%Z)] ++ ticks 250)
            Host.mounted)
  = (mkCanvas 11 21 33 63)%Z.
Proof.
  destruct (backing_store_settles Z.mul Host.integer_part 1 Host.canvas0 2%Z 0 [] 1 0
              (10, 20, 3)%Z [(50, (11, 21, 3)%Z)]) as [H _].
  - reflexivity.
  - repeat constructor; simpl; lia.
  - exact H.
Defined.

(** X13, on integers: four resize events 200 units apart, from time 0 on; at
    time 600 nothing has been rendered yet. *)
Lemma burst_postpones_render_witness :
  by_handler 0
    (trace (run Z.mul Host.integer_part
              (burst (10, 20, 3)%Z
                     [(200, (11, 21, 3)%Z); (200, (12, 22, 3)%Z);
                      (200, (13, 23, 3)%Z)])
              Host.mounted)) = [] /\
  now (run Z.mul Host.integer_part
         (burst (10, 20, 3)%Z
                [(200, (11, 21, 3)%Z); (200, (12, 22, 3)%Z); (200, (13, 23, 3)%Z)])
         Host.mounted) = 600.
Proof.
  destruct (burst_postpones_render Z.mul Host.integer_part 1 Host.canvas0 2%Z 0 [] 1 0
              (10, 20, 3)%Z
              [(200, (11, 21, 3)%Z); (200, (12, 22, 3)%Z); (200, (13, 23, 3)%Z)])
    as (B & N & _).
  - reflexivity.
  - repeat constructor; simpl; lia.
  - split; [exact B|exact N].
Defined.

(** X14, on integers: the callback changes from [1] to [2] at time 100; the
    render of time 250 calls [1]. *)
Lemma replaced_callback_still_called_witness :
  trace (run Z.mul Host.integer_part (ticks 100 ++ [Rerender 2] ++ ticks (250 - 100 + 50))
             Host.mounted)
  = [(0, GetContext); (250, Recompute 0 600%Z 300%Z);
     (250, Render 0 1 (mkCanvas 300 150 600 300)%Z (Some Context2D))].
Proof.
  apply (replaced_callback_still_called Z.mul Host.integer_part 1 2
      Host.canvas0 2%Z 0 100 50); lia.
Defined.

(** X15, on integers: two resize events 400 units apart. *)
Lemma spaced_resizes_render_each_witness :
  by_handler 0
    (trace (run Z.mul Host.integer_part
              (Resize 10%Z 20%Z 3%Z :: ticks 400
               ++ Resize 11%Z 21%Z 2%Z :: ticks 250)
              Host.mounted))
  = firing 250 0 1 (mkCanvas 10 20 30 60)%Z (Some Context2D)
    ++ firing 650 0 1 (mkCanvas 11 21 22 42)%Z (Some Context2D).
Proof.
  apply (spaced_resizes_render_each Z.mul Host.integer_part 1 Host.canvas0 2%Z 0 [] 1 0
           10%Z 20%Z 3%Z 11%Z 21%Z 2%Z 400).
  - reflexivity.
  - lia.
Defined.

End UseCanvas2dSpec.
